(** * Flow rule manager (core/flow/rule_manager.go)

    A shallow embedding of the rule manager of the flow module: the
    generator registry [tcGenFuncMap], the effective controller map
    [tcMap], [IsValidRule], [buildFlowMap], [onRuleUpdate] / [LoadRules]
    and the query functions [GetRules] / [GetRulesOfResource].

    Go pointers are addresses into an explicit heap, a nil pointer is
    [None]; a panic is the [Panic] result of an error monad, and the heap
    is passed along where the code allocates.  The read/write lock
    [tcMux] only serialises callers and is not represented: every
    operation below is one critical section. *)

From Stdlib Require Import QArith Qcanon.
From stdpp Require Import gmap strings list fin_maps fin_sets.

Local Open Scope Z_scope.

(** ** Data model *)

Module Flow.

(** Modelled from the spec: the [Rule] struct is declared outside
    rule_manager.go.  The fields are the ones the spec lists and the
    tests of this file initialise; the enum-typed fields are signed
    integers (the validator compares them with 0), [Count] is a numeric
    threshold (the tests use -1.9), kept exact as a rational. *)
Record Rule := {
  Resource : string;
  MetricType : Z;
  TokenCalculateStrategy : Z;
  ControlBehavior : Z;
  Count : Qc;
  RelationStrategy : Z;
  RefResource : string;
  MaxQueueingTimeMs : Z;
  WarmUpPeriodSec : Z;
  WarmUpColdFactor : Z
}.

#[global] Instance Rule_eq_dec : EqDecision Rule.
Proof. solve_decision. Defined.

(** Modelled from the spec: the enum constants are declared outside
    rule_manager.go; each enum counts from 0 in declaration order. *)
Definition Concurrency : Z := 0.
Definition QPS : Z := 1.
Definition CurrentResource : Z := 0.
Definition AssociatedResource : Z := 1.
Definition Direct : Z := 0.
Definition WarmUp : Z := 1.
Definition Reject : Z := 0.
Definition Throttling : Z := 1.

(** The metric types and relation strategies that have a name. *)
Definition knownMetricType (t : Z) : Prop := t = Concurrency ∨ t = QPS.
Definition knownRelationStrategy (s : Z) : Prop :=
  s = CurrentResource ∨ s = AssociatedResource.

(** A Go [error]: [None] is the nil error, [Some msg] is
    [errors.New(msg)]. *)
Definition error := option string.

(** [IsValidRule]; the argument is the rule behind the pointer, [None]
    for a nil pointer. *)
Definition IsValidRule (rule : option Rule) : error :=
  match rule with
  | None => Some "nil Rule"%string
  | Some rule =>
    if decide (Resource rule = ""%string) then Some "empty resource name"%string
    else if decide (Count rule < 0)%Qc then Some "negative threshold"%string
    else if decide (MetricType rule < 0) then Some "invalid metric type"%string
    else if decide (RelationStrategy rule < 0) then
      Some "invalid relation strategy"%string
    else if decide (TokenCalculateStrategy rule < 0 ∨ ControlBehavior rule < 0)
      then Some "invalid control strategy"%string
    else if decide (RelationStrategy rule = AssociatedResource
                    ∧ RefResource rule = ""%string) then
      Some "Bad flow rule: invalid control behavior"%string
    else if decide (TokenCalculateStrategy rule = WarmUp) then
      if decide (WarmUpPeriodSec rule ≤ 0) then
        Some "invalid warmUpPeriodSec"%string
      else if decide (WarmUpColdFactor rule = 1) then
        Some "WarmUpColdFactor must be great than 1"%string
      else None
    else None
  end.

(** The error messages of [IsValidRule], in the order of its checks. *)
Definition validationErrors : list string :=
  [ "nil Rule"; "empty resource name"; "negative threshold";
    "invalid metric type"; "invalid relation strategy";
    "invalid control strategy"; "Bad flow rule: invalid control behavior";
    "invalid warmUpPeriodSec"; "WarmUpColdFactor must be great than 1" ]%string.

(** The rules of TestIsValidFlowRule. *)
Definition badRule1 : Rule :=
  {| Resource := ""; MetricType := QPS; TokenCalculateStrategy := 0;
     ControlBehavior := 0; Count := Q2Qc 1; RelationStrategy := 0;
     RefResource := ""; MaxQueueingTimeMs := 0; WarmUpPeriodSec := 0;
     WarmUpColdFactor := 0 |}.

Definition badRule2 : Rule :=
  {| Resource := "test"; MetricType := QPS; TokenCalculateStrategy := 0;
     ControlBehavior := 0; Count := Q2Qc (-19 # 10); RelationStrategy := 0;
     RefResource := ""; MaxQueueingTimeMs := 0; WarmUpPeriodSec := 0;
     WarmUpColdFactor := 0 |}.

Definition badRule3 : Rule :=
  {| Resource := "test"; MetricType := QPS; TokenCalculateStrategy := WarmUp;
     ControlBehavior := Reject; Count := Q2Qc 5; RelationStrategy := 0;
     RefResource := ""; MaxQueueingTimeMs := 0; WarmUpPeriodSec := 0;
     WarmUpColdFactor := 0 |}.

Definition goodRule1 : Rule :=
  {| Resource := "test"; MetricType := QPS; TokenCalculateStrategy := WarmUp;
     ControlBehavior := Throttling; Count := Q2Qc 10; RelationStrategy := 0;
     RefResource := ""; MaxQueueingTimeMs := 0; WarmUpPeriodSec := 10;
     WarmUpColdFactor := 2 |}.

(** A rule whose metric type has no name, every other field valid. *)
Definition unknownMetricRule : Rule :=
  {| Resource := "test"; MetricType := 99; TokenCalculateStrategy := Direct;
     ControlBehavior := Reject; Count := Q2Qc 10; RelationStrategy := 0;
     RefResource := ""; MaxQueueingTimeMs := 0; WarmUpPeriodSec := 0;
     WarmUpColdFactor := 0 |}.

(** ** Pointers, heap and panics *)

(** An address; a pointer is an [option addr], [None] for nil. *)
Abbreviation addr := nat.

(** What a piece of code that may panic yields: its value, or the value
    handed to [panic]. *)
Inductive result (A : Type) : Type :=
| Ok (a : A)
| Panic (msg : string).
Arguments Ok {A} a.
Arguments Panic {A} msg.

#[global] Instance result_ret : MRet result := λ A a, Ok a.
#[global] Instance result_bind : MBind result := λ A B f r,
  match r with Ok a => f a | Panic msg => Panic msg end.
#[global] Instance result_fmap : FMap result := λ A B f r,
  match r with Ok a => Ok (f a) | Panic msg => Panic msg end.

Definition nilDeref : string :=
  "runtime error: invalid memory address or nil pointer dereference".

(** A Go slice that may be nil: [NilSlice] is the nil slice, [Slice l] a
    slice over a backing array. *)
Inductive slice (A : Type) : Type :=
| NilSlice
| Slice (l : list A).
Arguments NilSlice {A}.
Arguments Slice {A} l.

Definition elems {A} (s : slice A) : list A :=
  match s with NilSlice => [] | Slice l => l end.
Definition len {A} (s : slice A) : nat := length (elems s).
Definition append {A} (s : slice A) (x : A) : slice A := Slice (elems s ++ [x]).

(** Modelled from the spec: the calculator and the checker of a
    controller are opaque to the rule manager; the constructors are the
    ones [init] calls, plus one for what a custom generator builds. *)
Inductive TrafficShapingCalculator : Type :=
| NewDirectTrafficShapingCalculator (count : Qc)
| NewWarmUpTrafficShapingCalculator (rule : addr)
| CustomCalculator (tag : nat).

Inductive TrafficShapingChecker : Type :=
| NewDefaultTrafficShapingChecker (rule : addr)
| NewThrottlingChecker (maxQueueingTimeMs : Z)
| CustomChecker (tag : nat).

(** Modelled from the spec: [TrafficShapingController] is declared
    outside rule_manager.go; it pairs a rule pointer (the field [rule],
    read by the method [Rule()], nil in [&TrafficShapingController{}])
    with a calculator and a checker. *)
Record TrafficShapingController := NewTrafficShapingController {
  calculator : TrafficShapingCalculator;
  checker : TrafficShapingChecker;
  rule : option addr
}.

(** The heap: the [Rule] cells and the [TrafficShapingController] cells
    that exist.  An address is an index; allocation appends a cell, so a
    cell is never reused. *)
Record Heap := {
  rules : list Rule;
  ctrls : list TrafficShapingController
}.

Definition allocCtrl (c : TrafficShapingController) (h : Heap) : addr * Heap :=
  (length (ctrls h), {| rules := rules h; ctrls := ctrls h ++ [c] |}).

Definition allocRule (r : Rule) (h : Heap) : addr * Heap :=
  (length (rules h), {| rules := rules h ++ [r]; ctrls := ctrls h |}).

(** [*p = v]. *)
Definition storeRule (p : addr) (v : Rule) (h : Heap) : Heap :=
  {| rules := <[p := v]> (rules h); ctrls := ctrls h |}.

(** [*p] for a rule pointer and for a controller pointer. *)
Definition derefRule (h : Heap) (p : option addr) : result Rule :=
  match p with
  | None => Panic nilDeref
  | Some a => match rules h !! a with Some r => Ok r | None => Panic nilDeref end
  end.

Definition derefCtrl (h : Heap) (tc : addr) : result TrafficShapingController :=
  match ctrls h !! tc with Some c => Ok c | None => Panic nilDeref end.

(** Modelled from the spec: [Rule.equalsTo] is declared outside
    rule_manager.go; two rules are equivalent iff all their fields are
    equal.  Reading the fields dereferences both pointers. *)
Definition equalsTo (h : Heap) (f newRule : option addr) : result bool :=
  f ← derefRule h f;
  newRule ← derefRule h newRule;
  mret (bool_decide (f = newRule)).
Arguments equalsTo : simpl never.

(** ** The generator registry *)

(** What a generator call does: it panics, returns nil, builds a new
    controller from the rule pointer it was handed, or returns a
    controller that exists already (one its closure captured). *)
Inductive GenOutcome : Type :=
| GenPanic (msg : string)
| GenNil
| GenNew (mk : addr → TrafficShapingController)
| GenShared (tsc : addr).

(** [TrafficControllerGenFunc]: the outcome is decided by the fields of
    the rule behind the pointer. *)
Definition TrafficControllerGenFunc := Rule → GenOutcome.

(** [trafficControllerGenKey]. *)
Abbreviation trafficControllerGenKey := (Z * Z)%type.

(** The key a rule is looked up with. *)
Definition key (r : Rule) : trafficControllerGenKey :=
  (TokenCalculateStrategy r, ControlBehavior r).

(** [TrafficControllerMap]. *)
Abbreviation TrafficControllerMap := (gmap string (list addr)).
Abbreviation GenFuncMap := (gmap trafficControllerGenKey TrafficControllerGenFunc).

(** The registry after [init]. *)
Definition initGenFuncMap : GenFuncMap :=
  <[(WarmUp, Throttling) := λ r, GenNew (λ p,
      NewTrafficShapingController (NewWarmUpTrafficShapingCalculator p)
        (NewThrottlingChecker (MaxQueueingTimeMs r)) (Some p))]>
  (<[(WarmUp, Reject) := λ r, GenNew (λ p,
      NewTrafficShapingController (NewWarmUpTrafficShapingCalculator p)
        (NewDefaultTrafficShapingChecker p) (Some p))]>
  (<[(Direct, Throttling) := λ r, GenNew (λ p,
      NewTrafficShapingController (NewDirectTrafficShapingCalculator (Count r))
        (NewThrottlingChecker (MaxQueueingTimeMs r)) (Some p))]>
  (<[(Direct, Reject) := λ r, GenNew (λ p,
      NewTrafficShapingController (NewDirectTrafficShapingCalculator (Count r))
        (NewDefaultTrafficShapingChecker p) (Some p))]> ∅))).

(** The process state: the heap and the package variables
    [tcGenFuncMap] and [tcMap]. *)
Record State := {
  heap : Heap;
  tcGenFuncMap : GenFuncMap;
  tcMap : TrafficControllerMap
}.

Definition initState (h : Heap) : State :=
  {| heap := h; tcGenFuncMap := initGenFuncMap; tcMap := ∅ |}.

Definition protectedError : string :=
  "not allowed to replace the generator for default control strategy".

(** [SetTrafficShapingGenerator]; a nil generator is [None]. *)
Definition SetTrafficShapingGenerator (tokenCalculateStrategy controlBehavior : Z)
    (generator : option TrafficControllerGenFunc) (st : State) : error * State :=
  match generator with
  | None => (Some "nil generator"%string, st)
  | Some generator =>
    if decide (Direct ≤ tokenCalculateStrategy ∧ tokenCalculateStrategy ≤ WarmUp)
    then (Some protectedError, st)
    else if decide (Reject ≤ controlBehavior ∧ controlBehavior ≤ Throttling)
    then (Some protectedError, st)
    else (None,
          {| heap := heap st;
             tcGenFuncMap :=
               <[(tokenCalculateStrategy, controlBehavior) := generator]>
                 (tcGenFuncMap st);
             tcMap := tcMap st |})
  end.

(** [RemoveTrafficShapingGenerator]. *)
Definition RemoveTrafficShapingGenerator (tokenCalculateStrategy controlBehavior : Z)
    (st : State) : error * State :=
  if decide (Direct ≤ tokenCalculateStrategy ∧ tokenCalculateStrategy ≤ WarmUp)
  then (Some protectedError, st)
  else if decide (Reject ≤ controlBehavior ∧ controlBehavior ≤ Throttling)
  then (Some protectedError, st)
  else (None,
        {| heap := heap st;
           tcGenFuncMap :=
             delete (tokenCalculateStrategy, controlBehavior) (tcGenFuncMap st);
           tcMap := tcMap st |}).

(** ** Building the candidate map *)

Definition withHeap (st : State) (h : Heap) : State :=
  {| heap := h; tcGenFuncMap := tcGenFuncMap st; tcMap := tcMap st |}.

(** The deduplication scan of [buildFlowMap]:
    [for _, tc := range rulesOfRes { if rule.equalsTo(tc.rule) {...} }];
    [true] when the scan sets [rule = nil]. *)
Fixpoint isDuplicate (h : Heap) (rule : addr) (rulesOfRes : list addr)
    : result bool :=
  match rulesOfRes with
  | [] => mret false
  | tc :: rest =>
    c ← derefCtrl h tc;
    eq ← equalsTo h (Some rule) (Flow.rule c);
    if eq : bool then mret true else isDuplicate h rule rest
  end.

(** The loop of [buildFlowMap] over the remaining rules; [m] and
    [failedRules] are the named results built so far.  The heap grows
    when a generator builds a controller and is returned also when the
    loop panics. *)
Fixpoint buildFlowMapLoop (reg : GenFuncMap) (rules : list (option addr))
    (m : TrafficControllerMap) (failedRules : slice (option addr)) (h : Heap)
    : result (TrafficControllerMap * slice (option addr)) * Heap :=
  match rules with
  | [] => (Ok (m, failedRules), h)
  | None :: rest => buildFlowMapLoop reg rest m failedRules h
  | Some p :: rest =>
    match derefRule h (Some p) with
    | Panic msg => (Panic msg, h)
    | Ok rule =>
      match IsValidRule (Some rule) with
      | Some _ => buildFlowMapLoop reg rest m (append failedRules (Some p)) h
      | None =>
        let rulesOfRes := m !! Resource rule in
        match from_option (isDuplicate h p) (Ok false) rulesOfRes with
        | Panic msg => (Panic msg, h)
        | Ok true => buildFlowMapLoop reg rest m failedRules h
        | Ok false =>
          match reg !! key rule with
          | None => buildFlowMapLoop reg rest m (append failedRules (Some p)) h
          | Some generator =>
            match generator rule with
            | GenPanic msg => (Panic msg, h)
            | GenNil =>
              buildFlowMapLoop reg rest m (append failedRules (Some p)) h
            | GenNew mk =>
              let '(tsc, h') := allocCtrl (mk p) h in
              buildFlowMapLoop reg rest
                (<[Resource rule := default [] rulesOfRes ++ [tsc]]> m)
                failedRules h'
            | GenShared tsc =>
              buildFlowMapLoop reg rest
                (<[Resource rule := default [] rulesOfRes ++ [tsc]]> m)
                failedRules h
            end
          end
        end
      end
    end
  end.

(** [buildFlowMap]. *)
Definition buildFlowMap (reg : GenFuncMap) (rules : slice (option addr))
    (h : Heap) : result (TrafficControllerMap * slice (option addr)) * Heap :=
  if decide (len rules = 0%nat) then (Ok (∅, NilSlice), h)
  else buildFlowMapLoop reg (elems rules) ∅ NilSlice h.

(** ** Change detection and the swap *)

(** The inner loop of the change detection:
    [for _, mTc := range mTcs { if tc.rule.equalsTo(mTc.rule) {...} }]. *)
Fixpoint hasEqual (h : Heap) (tc : addr) (mTcs : list addr) : result bool :=
  match mTcs with
  | [] => mret false
  | mTc :: rest =>
    c ← derefCtrl h tc;
    mc ← derefCtrl h mTc;
    eq ← equalsTo h (rule c) (rule mc);
    if eq : bool then mret true else hasEqual h tc rest
  end.

(** [eqCount] after the loop over [tcs]. *)
Fixpoint eqCount (h : Heap) (tcs mTcs : list addr) : result nat :=
  match tcs with
  | [] => mret 0%nat
  | tc :: rest =>
    found ← hasEqual h tc mTcs;
    n ← eqCount h rest mTcs;
    mret (if found : bool then S n else n)
  end.

(** The loop [for res, tcs := range tcMap] over the entries still to
    visit; the result is [ret]. *)
Fixpoint diffLoop (h : Heap) (m : TrafficControllerMap)
    (entries : list (string * list addr)) : result bool :=
  match entries with
  | [] => mret false
  | (res, tcs) :: rest =>
    match m !! res with
    | None => mret true
    | Some mTcs =>
      if decide (length tcs ≠ length mTcs) then mret true
      else
        n ← eqCount h tcs mTcs;
        if decide (n < length tcs)%nat then mret true else diffLoop h m rest
    end
  end.

Section Manager.

(** [for k, v := range m]: Go visits the entries of a map in an order of
    its own choosing; [range m] is the order of a traversal of [m]. *)
Variable range : TrafficControllerMap → list (string * list addr).
Hypothesis range_perm : ∀ m, range m ≡ₚ map_to_list m.

(** The change detection of [onRuleUpdate] (the [if len(tcMap) != len(m)]
    statement). *)
Definition rulesChanged (h : Heap) (tcMap m : TrafficControllerMap)
    : result bool :=
  if decide (size tcMap ≠ size m) then mret true
  else diffLoop h m (range tcMap).

(** The body of [onRuleUpdate] up to [tcMap = m]: the value of [ret],
    [failedRules] and the new [tcMap], or the panic. *)
Definition onRuleUpdateBody (rules : slice (option addr)) (st : State)
    : result (bool * slice (option addr) * TrafficControllerMap) * Heap :=
  match buildFlowMap (tcGenFuncMap st) rules (heap st) with
  | (Panic msg, h) => (Panic msg, h)
  | (Ok (m, failedRules), h) =>
    (ret ← rulesChanged h (tcMap st) m; mret (ret, failedRules, m), h)
  end.

(** [onRuleUpdate]: the body, then the deferred function.  On a panic
    [recover] yields the error, [failedRules = rules], and [ret] still
    has its zero value: the body assigns [ret] only right before it
    leaves the loop.  Logging is not represented. *)
Definition onRuleUpdate (rules : slice (option addr)) (st : State)
    : (bool * error * slice (option addr)) * State :=
  match onRuleUpdateBody rules st with
  | (Panic msg, h) => ((false, Some msg, rules), withHeap st h)
  | (Ok (ret, failedRules, m), h) =>
    ((ret, None, failedRules),
     {| heap := h; tcGenFuncMap := tcGenFuncMap st; tcMap := m |})
  end.

(** [LoadRules]. *)
Definition LoadRules (rules : slice (option addr)) (st : State)
    : (bool * error * slice (option addr)) * State :=
  onRuleUpdate rules st.

(** [ClearRules]. *)
Definition ClearRules (st : State) : error * State :=
  let '((_, err, _), st') := LoadRules NilSlice st in (err, st').

(** ** Queries *)

(** The inner loop of [rulesFrom]:
    [if r != nil && r.Rule() != nil { rules = append(rules, r.Rule()) }]. *)
Fixpoint rulesOfList (h : Heap) (rs : list addr) : result (list (option addr)) :=
  match rs with
  | [] => mret []
  | r :: rest =>
    c ← derefCtrl h r;
    tl ← rulesOfList h rest;
    mret (match rule c with Some p => Some p :: tl | None => tl end)
  end.

Fixpoint rulesFromLoop (h : Heap) (entries : list (string * list addr))
    : result (list (option addr)) :=
  match entries with
  | [] => mret []
  | (_, rs) :: rest =>
    l ← rulesOfList h rs;
    tl ← rulesFromLoop h rest;
    mret (l ++ tl)
  end.

(** [rulesFrom]. *)
Definition rulesFrom (h : Heap) (m : TrafficControllerMap)
    : result (slice (option addr)) :=
  if decide (size m = 0%nat) then mret (Slice [])
  else Slice <$> rulesFromLoop h (range m).

(** [getRules]. *)
Definition getRules (st : State) : result (slice (option addr)) :=
  rulesFrom (heap st) (tcMap st).

(** The loop of [getRulesOfResource]: [ret = append(ret, tc.Rule())]. *)
Fixpoint rulesOfResource (h : Heap) (resTcs : list addr)
    : result (list (option addr)) :=
  match resTcs with
  | [] => mret []
  | tc :: rest =>
    c ← derefCtrl h tc;
    tl ← rulesOfResource h rest;
    mret (rule c :: tl)
  end.

(** [getRulesOfResource]. *)
Definition getRulesOfResource (res : string) (st : State)
    : result (slice (option addr)) :=
  match tcMap st !! res with
  | None => mret NilSlice
  | Some resTcs => Slice <$> rulesOfResource (heap st) resTcs
  end.

(** The copy loop of [GetRules] and [GetRulesOfResource]:
    [ret = append(ret, *rule)].  Each element of the new backing array
    is a new [Rule] cell; the result lists the addresses [&ret[i]]. *)
Fixpoint copyRules (rules : list (option addr)) (h : Heap)
    : result (list addr) * Heap :=
  match rules with
  | [] => (Ok [], h)
  | rule :: rest =>
    match derefRule h rule with
    | Panic msg => (Panic msg, h)
    | Ok r =>
      let '(a, h1) := allocRule r h in
      match copyRules rest h1 with
      | (Ok l, h2) => (Ok (a :: l), h2)
      | (Panic msg, h2) => (Panic msg, h2)
      end
    end
  end.

(** [ret := make([]Rule, 0, len(rules))] and the copy loop. *)
Definition copySlice (rules : result (slice (option addr))) (st : State)
    : result (slice addr) * State :=
  match rules with
  | Panic msg => (Panic msg, st)
  | Ok rules =>
    let '(r, h) := copyRules (elems rules) (heap st) in
    (Slice <$> r, withHeap st h)
  end.

(** [GetRules]. *)
Definition GetRules (st : State) : result (slice addr) * State :=
  copySlice (getRules st) st.

(** [GetRulesOfResource]. *)
Definition GetRulesOfResource (res : string) (st : State)
    : result (slice addr) * State :=
  copySlice (getRulesOfResource res st) st.

(** [getTrafficControllerListFor]. *)
Definition getTrafficControllerListFor (name : string) (st : State)
    : slice addr :=
  match tcMap st !! name with None => NilSlice | Some tcs => Slice tcs end.

(** The [Rule] values held by the cells of a slice. *)
Definition readRules (h : Heap) (s : list addr) : list (option Rule) :=
  (λ a, rules h !! a) <$> s.

(** What a successful query returned: the values of the returned slice,
    read right after the call. *)
Definition returned (q : result (slice addr) * State) : option (list (option Rule)) :=
  match q with
  | (Ok s, st) => Some (readRules (heap st) (elems s))
  | (Panic _, _) => None
  end.

(** ** Vocabulary of the properties *)

(** The value of the rule a controller carries: [*tc.Rule()]. *)
Definition ruleOf (h : Heap) (tc : addr) : option Rule :=
  c ← ctrls h !! tc; q ← rule c; rules h !! q.

Definition ruleValues (h : Heap) (tcs : list addr) : option (list Rule) :=
  mapM (ruleOf h) tcs.
Arguments ruleValues : simpl never.

(** [h'] has the cells of [h] and maybe more controllers. *)
Definition extends (h h' : Heap) : Prop :=
  rules h' = rules h ∧ ctrls h `prefix_of` ctrls h'.

(** The contract between the manager and a generator: the controller
    returned for a rule carries that rule (a rule of the same value). *)
Definition keepsRule (h : Heap) (g : TrafficControllerGenFunc) (r : Rule) : Prop :=
  match g r with
  | GenNew mk =>
    ∀ p, rules h !! p = Some r → ∃ q, rule (mk p) = Some q ∧ rules h !! q = Some r
  | GenShared tsc => ruleOf h tsc = Some r
  | _ => True
  end.

Definition honoursContract (h : Heap) (reg : GenFuncMap) : Prop :=
  ∀ r g, reg !! key r = Some g → keepsRule h g r.

(** Every registered generator constructs the controller it returns. *)
Definition constructs (reg : GenFuncMap) : Prop :=
  ∀ k g r tsc, reg !! k = Some g → g r ≠ GenShared tsc.

Definition builds (o : GenOutcome) : bool :=
  match o with GenNew _ | GenShared _ => true | _ => false end.

(** A rule that gets a controller unless it is a duplicate: it is valid
    and its generator returns a controller. *)
Definition accepted (reg : GenFuncMap) (r : Rule) : bool :=
  bool_decide (IsValidRule (Some r) = None)
  && match reg !! key r with Some g => builds (g r) | None => false end.

(** A rule that is invalid, has no registered generator, or whose
    generator returns nil. *)
Definition rejected (reg : GenFuncMap) (r : Rule) : bool :=
  bool_decide (IsValidRule (Some r) ≠ None)
  || match reg !! key r with
     | None => true
     | Some g => match g r with GenNil => true | _ => false end
     end.

Definition valueOf (store : list Rule) (p : option addr) : option Rule :=
  a ← p; store !! a.

Definition rejectedPtr (reg : GenFuncMap) (store : list Rule) (p : option addr)
    : bool :=
  match valueOf store p with Some r => rejected reg r | None => false end.

(** The values of the non-nil rules of an input list, in input order. *)
Definition inputValues (store : list Rule) (rs : list (option addr)) : list Rule :=
  omap (valueOf store) rs.

(** First occurrences, in order. *)
Definition keepFirst (acc : list Rule) (r : Rule) : list Rule :=
  if decide (r ∈ acc) then acc else acc ++ [r].

Definition firstSeen (l : list Rule) : list Rule := foldl keepFirst [] l.

(** The rule values [buildFlowMap] is to keep for a resource: the
    accepted input rules of the resource, first occurrences in input
    order. *)
Definition keptFor (reg : GenFuncMap) (h : Heap) (rs : list (option addr))
    (res : string) : list Rule :=
  filter (λ v, Resource v = res)
    (firstSeen (filter (λ v, accepted reg v) (inputValues (rules h) rs))).

(** No rule of the list dangles and no generator the loop reaches
    panics. *)
Definition runsClean (reg : GenFuncMap) (store : list Rule)
    (rs : list (option addr)) : Prop :=
  Forall (λ p, match p with
               | None => True
               | Some a =>
                 ∃ r, store !! a = Some r
                      ∧ (IsValidRule (Some r) = None →
                         ∀ g msg, reg !! key r = Some g → g r ≠ GenPanic msg)
               end) rs.

(** Every controller list of the map carries pairwise different rule
    values. *)
Definition distinctRules (h : Heap) (m : TrafficControllerMap) : Prop :=
  ∀ res tcs, m !! res = Some tcs → ∃ vs, ruleValues h tcs = Some vs ∧ NoDup vs.

(** The two maps have the same resources and, for each resource, the
    same set of rule values. *)
Definition sameRuleSets (h : Heap) (m1 m2 : TrafficControllerMap) : Prop :=
  dom m1 = dom m2
  ∧ ∀ res tcs1 tcs2, m1 !! res = Some tcs1 → m2 !! res = Some tcs2 →
      ∃ vs1 vs2, ruleValues h tcs1 = Some vs1 ∧ ruleValues h tcs2 = Some vs2
                 ∧ ∀ r, r ∈ vs1 ↔ r ∈ vs2.


(** Every controller of the map is a cell of the heap. *)
Definition allocated (h : Heap) (m : TrafficControllerMap) : Prop :=
  ∀ res tcs tc, m !! res = Some tcs → tc ∈ tcs → is_Some (ctrls h !! tc).

(** The checks of a rule as the validator's contract lists them, in
    order, each with its error; [firstViolation] reports the first one
    that fires. *)
Definition ruleChecks (r : Rule) : list (bool * string) :=
  [ (bool_decide (Resource r = ""%string), "empty resource name"%string);
    (bool_decide (Count r < 0)%Qc, "negative threshold"%string);
    (bool_decide (MetricType r < 0), "invalid metric type"%string);
    (bool_decide (RelationStrategy r < 0), "invalid relation strategy"%string);
    (bool_decide (TokenCalculateStrategy r < 0 ∨ ControlBehavior r < 0),
     "invalid control strategy"%string);
    (bool_decide (RelationStrategy r = AssociatedResource ∧ RefResource r = ""%string),
     "Bad flow rule: invalid control behavior"%string);
    (bool_decide (TokenCalculateStrategy r = WarmUp ∧ WarmUpPeriodSec r ≤ 0),
     "invalid warmUpPeriodSec"%string);
    (bool_decide (TokenCalculateStrategy r = WarmUp ∧ WarmUpColdFactor r = 1),
     "WarmUpColdFactor must be great than 1"%string) ].

Definition firstViolation (rule : option Rule) : error :=
  match rule with
  | None => Some "nil Rule"%string
  | Some r => snd <$> head (filter (λ c, fst c = true) (ruleChecks r))
  end.

(** A rule whose relation strategy has no name, every other field
    valid. *)
Definition unknownRelationRule : Rule :=
  {| Resource := "test"; MetricType := QPS; TokenCalculateStrategy := Direct;
     ControlBehavior := Reject; Count := Q2Qc 10; RelationStrategy := 7;
     RefResource := ""; MaxQueueingTimeMs := 0; WarmUpPeriodSec := 0;
     WarmUpColdFactor := 0 |}.

(** A custom generator that builds a controller around no rule. *)
Definition emptyControllerGen : TrafficControllerGenFunc :=
  λ _, GenNew (λ _, NewTrafficShapingController (CustomCalculator 0)
                      (CustomChecker 0) None).

(** The candidate map [m] holds, for every resource, controllers that
    carry the rules of [acc] of that resource, in the order of [acc];
    no resource is bound to an empty list. *)
Definition represents (h : Heap) (m : TrafficControllerMap) (acc : list Rule) : Prop :=
  ∀ res, ruleValues h (default [] (m !! res))
           = Some (filter (λ v, Resource v = res) acc)
         ∧ m !! res ≠ Some [].

(** [failedRules] after appending the elements of [l] one by one. *)
Definition appendAll {A} (s : slice A) (l : list A) : slice A := foldl append s l.

(** A caller writing to cells: [*a = v] for each pair, in order. *)
Definition storeAll (stores : list (addr * Rule)) (h : Heap) : Heap :=
  foldl (λ h av, storeRule av.1 av.2 h) h stores.

(** Every entry visited has a list of the same length in [m] whose
    rule values include the entry's. *)
Definition entryMatched (h : Heap) (m : TrafficControllerMap)
    (e : string * list addr) : Prop :=
  ∃ mTcs vs vs', m !! e.1 = Some mTcs ∧ length e.2 = length mTcs
                 ∧ ruleValues h e.2 = Some vs ∧ ruleValues h mTcs = Some vs'
                 ∧ ∀ r, r ∈ vs → r ∈ vs'.

(** No pointer dangles: every controller of the map is a cell of the
    heap, and so is the rule it points to unless that pointer is nil. *)
Definition noDangling (h : Heap) (m : TrafficControllerMap) : Prop :=
  ∀ res tcs tc, m !! res = Some tcs → tc ∈ tcs →
    ∃ c, ctrls h !! tc = Some c ∧ ∀ q, rule c = Some q → is_Some (rules h !! q).

(** Every pointer of the list is nil or points to a cell of the store. *)
Definition wfPtrs (store : list Rule) (ps : list (option addr)) : Prop :=
  Forall (λ p, ∀ a, p = Some a → is_Some (store !! a)) ps.


(** The rule pointers that [rulesFrom] collects from a controller list:
    the non-nil ones, in order. *)
Definition ptrsOf (h : Heap) (tcs : list addr) : list (option addr) :=
  tcs ≫= λ tc, match ctrls h !! tc with
               | Some c => match rule c with Some q => [Some q] | None => [] end
               | None => []
               end.
Arguments ptrsOf : simpl never.

(** Every controller of the map carries a rule. *)
Definition carriesRules (h : Heap) (m : TrafficControllerMap) : Prop :=
  ∀ res tcs, m !! res = Some tcs → is_Some (ruleValues h tcs).

(** A reload that reports no change holds none of the controllers that
    the effective map held before it. *)
Definition reloadBuildsNewControllers : Prop :=
  ∀ st rules ret1 failed1 st1 failed2 st2,
    LoadRules rules st = ((ret1, None, failed1), st1) →
    LoadRules rules st1 = ((false, None, failed2), st2) →
    ∀ res tcs1 tcs2 tc,
      tcMap st1 !! res = Some tcs1 → tcMap st2 !! res = Some tcs2 →
      tc ∈ tcs2 → tc ∉ tcs1.

(** The rule of TestSetAndRemoveTrafficShapingGenerator. *)
Definition customRule : Rule :=
  {| Resource := "test-customized-tc"; MetricType := QPS;
     TokenCalculateStrategy := 111; ControlBehavior := 112;
     Count := Q2Qc 20; RelationStrategy := 0; RefResource := "";
     MaxQueueingTimeMs := 0; WarmUpPeriodSec := 0; WarmUpColdFactor := 0 |}.

(** A generator whose closure holds one controller, built around the
    rule at address 0, and returns it on every call. *)
Definition sharedControllerGen : TrafficControllerGenFunc := λ _, GenShared 0.

Definition sharedState : State :=
  {| heap := {| rules := [customRule];
                ctrls := [NewTrafficShapingController (CustomCalculator 0)
                            (CustomChecker 0) (Some 0%nat)] |};
     tcGenFuncMap := <[(111, 112) := sharedControllerGen]> initGenFuncMap;
     tcMap := ∅ |}.

(** The state of TestSetAndRemoveTrafficShapingGenerator before it
    registers its generator: [tsc := &TrafficShapingController{}] is the
    controller at address 0, the generator is [sharedControllerGen]. *)
Definition tscState : State :=
  initState {| rules := [customRule];
               ctrls := [NewTrafficShapingController (CustomCalculator 0)
                           (CustomChecker 0) None] |}.

(** *** States of the tests *)

(** The rules r1 and r2 of Test_onRuleUpdate_valid, and a second rule
    for the resource of r1. *)
Definition ruleAbc1 : Rule :=
  {| Resource := "abc1"; MetricType := 0; TokenCalculateStrategy := Direct;
     ControlBehavior := Reject; Count := 0%Qc; RelationStrategy := 0;
     RefResource := ""; MaxQueueingTimeMs := 0; WarmUpPeriodSec := 0;
     WarmUpColdFactor := 0 |}.

Definition ruleAbc1Qps : Rule :=
  {| Resource := "abc1"; MetricType := QPS; TokenCalculateStrategy := Direct;
     ControlBehavior := Reject; Count := 0%Qc; RelationStrategy := 0;
     RefResource := ""; MaxQueueingTimeMs := 0; WarmUpPeriodSec := 0;
     WarmUpColdFactor := 0 |}.

Definition ruleAbc2 : Rule :=
  {| Resource := "abc2"; MetricType := 0; TokenCalculateStrategy := Direct;
     ControlBehavior := Throttling; Count := 0%Qc; RelationStrategy := 0;
     RefResource := ""; MaxQueueingTimeMs := 0; WarmUpPeriodSec := 0;
     WarmUpColdFactor := 0 |}.

(** The rule cells of the examples: address 3 holds a second instance of
    the rule at address 0, address 4 an invalid rule, address 5 a rule
    of a custom strategy. *)
Definition exampleRules : list Rule :=
  [ruleAbc1; ruleAbc1Qps; ruleAbc2; ruleAbc1; badRule1; customRule].

(** Nothing loaded yet. *)
Definition emptyState : State :=
  initState {| rules := exampleRules; ctrls := [] |}.

(** The state after [LoadRules] of the rules at 0, 1 and 2. *)
Definition loadedState : State :=
  {| heap :=
       {| rules := exampleRules;
          ctrls :=
            [ NewTrafficShapingController
                (NewDirectTrafficShapingCalculator 0%Qc)
                (NewDefaultTrafficShapingChecker 0%nat) (Some 0%nat);
              NewTrafficShapingController
                (NewDirectTrafficShapingCalculator 0%Qc)
                (NewDefaultTrafficShapingChecker 1%nat) (Some 1%nat);
              NewTrafficShapingController
                (NewDirectTrafficShapingCalculator 0%Qc)
                (NewThrottlingChecker 0) (Some 2%nat) ] |};
     tcGenFuncMap := initGenFuncMap;
     tcMap := <["abc2" := [2%nat]]> (<["abc1" := [0%nat; 1%nat]]> ∅) |}.

(** A custom generator that panics. *)
Definition panickingGen : TrafficControllerGenFunc :=
  λ _, GenPanic "custom generator failed".

(** [loadedState] after registering [panickingGen] for (111, 112). *)
Definition panickingState : State :=
  {| heap := heap loadedState;
     tcGenFuncMap := <[(111, 112) := panickingGen]> initGenFuncMap;
     tcMap := tcMap loadedState |}.

(** *** Checks that compute *)

Definition distinctRulesb (h : Heap) (m : TrafficControllerMap) : bool :=
  forallb (λ e : string * list addr,
             match ruleValues h e.2 with
             | Some vs => bool_decide (NoDup vs)
             | None => false
             end) (map_to_list m).

Definition noDanglingb (h : Heap) (m : TrafficControllerMap) : bool :=
  forallb (λ e : string * list addr,
             forallb (λ tc, match ctrls h !! tc with
                            | Some c =>
                              match rule c with
                              | Some q => bool_decide (is_Some (rules h !! q))
                              | None => true
                              end
                            | None => false
                            end) e.2)
          (map_to_list m).

(** Another traversal order: the reverse of [map_to_list]. *)
Definition reverseRange (m : TrafficControllerMap) : list (string * list addr) :=
  reverse (map_to_list m).

(** *** Loads, registry calls and provenance *)

(** Every non-nil rule of the list is a cell of the store and is
    rejected. *)
Definition allRejected (reg : GenFuncMap) (store : list Rule)
    (rs : list (option addr)) : Prop :=
  Forall (λ p, match p with
               | None => True
               | Some a => ∃ r, store !! a = Some r ∧ rejected reg r
               end) rs.

(** The values of the rules of an input list that are accepted, in
    input order, duplicates included. *)
Definition acceptedValues (reg : GenFuncMap) (store : list Rule)
    (rs : list (option addr)) : list Rule :=
  filter (λ v, accepted reg v) (inputValues store rs).

(** A call to the registry, and the state after a sequence of calls,
    whether they fail or not. *)
Inductive RegistryCall : Type :=
| CallSet (tokenCalculateStrategy controlBehavior : Z)
    (generator : option TrafficControllerGenFunc)
| CallRemove (tokenCalculateStrategy controlBehavior : Z).

Definition runCall (st : State) (c : RegistryCall) : State :=
  match c with
  | CallSet ts cb g => (SetTrafficShapingGenerator ts cb g st).2
  | CallRemove ts cb => (RemoveTrafficShapingGenerator ts cb st).2
  end.

Definition runCalls (cs : list RegistryCall) (st : State) : State :=
  foldl runCall st cs.

(** A rule that is invalid, or whose strategy or behavior is none of
    the built-in ones. *)
Definition builtinRejects (r : Rule) : bool :=
  bool_decide (IsValidRule (Some r) ≠ None)
  || bool_decide (WarmUp < TokenCalculateStrategy r ∨ Throttling < ControlBehavior r).

(** Every controller of the map points to a rule cell that the list
    [all] points to. *)
Definition sharesRules (all : list (option addr)) (h : Heap)
    (m : TrafficControllerMap) : Prop :=
  ∀ res tcs, m !! res = Some tcs →
    Forall (λ tc, ∃ c q, ctrls h !! tc = Some c ∧ rule c = Some q
                         ∧ Some q ∈ all ∧ is_Some (rules h !! q)) tcs.

(** The controller [tc], filed under [res], is what the registered
    generator of a valid rule of the list returned for that rule: a
    controller that existed, or one built from the rule's pointer in a
    cell that is new in [h']. *)
Definition generatedFor (reg : GenFuncMap) (rs : list (option addr))
    (h h' : Heap) (res : string) (tc : addr) : Prop :=
  ∃ p r g, Some p ∈ rs ∧ rules h !! p = Some r
           ∧ IsValidRule (Some r) = None ∧ Resource r = res
           ∧ reg !! key r = Some g
           ∧ (g r = GenShared tc
              ∨ ∃ mk, g r = GenNew mk ∧ (length (ctrls h) ≤ tc)%nat
                      ∧ ctrls h' !! tc = Some (mk p)).

(** The state of TestSetAndRemoveTrafficShapingGenerator after its
    [LoadRules]: the one controller of the map is [tsc], which has no
    rule. *)
Definition tscLoaded : State :=
  {| heap := heap tscState;
     tcGenFuncMap := <[(111, 112) := sharedControllerGen]> initGenFuncMap;
     tcMap := {["test-customized-tc"%string := [0%nat]]} |}.

(** A state whose effective map holds a controller without rule beside
    one with a rule: address 0 is [&TrafficShapingController{}]. *)
Definition nilRuleState : State :=
  {| heap := {| rules := [ruleAbc1; ruleAbc2; goodRule1];
                ctrls := [ NewTrafficShapingController (CustomCalculator 0)
                             (CustomChecker 0) None;
                           NewTrafficShapingController
                             (NewDirectTrafficShapingCalculator 0%Qc)
                             (NewThrottlingChecker 0) (Some 1%nat) ] |};
     tcGenFuncMap := initGenFuncMap;
     tcMap := <["abc2"%string := [1%nat]]> (<["abc1"%string := [0%nat]]> ∅) |}.

(** A second rule for the resource and the custom strategy of
    [customRule]. *)
Definition customRule2 : Rule :=
  {| Resource := "test-customized-tc"; MetricType := QPS;
     TokenCalculateStrategy := 111; ControlBehavior := 112;
     Count := Q2Qc 30; RelationStrategy := 0; RefResource := "";
     MaxQueueingTimeMs := 0; WarmUpPeriodSec := 0; WarmUpColdFactor := 0 |}.


(** A state whose custom generator returns, for every rule, the one
    controller that its closure holds; the controller was built around
    the rule at address 0. *)
Definition sharedPairState : State :=
  {| heap := {| rules := [customRule; customRule2];
                ctrls := [NewTrafficShapingController (CustomCalculator 0)
                            (CustomChecker 0) (Some 0%nat)] |};
     tcGenFuncMap := <[(111, 112) := sharedControllerGen]> initGenFuncMap;
     tcMap := ∅ |}.



(** ** Properties *)

(** *** Heaps that grow *)

Lemma extends_refl h : extends h h.
Proof. by split. Qed.

Lemma extends_trans h1 h2 h3 : extends h1 h2 → extends h2 h3 → extends h1 h3.
Proof.
  intros [Hr1 Hc1] [Hr2 Hc2]. split; [congruence|]. by etrans.
Qed.

Lemma extends_allocCtrl c h : extends h (allocCtrl c h).2.
Proof. split; [done|]. cbn. by apply prefix_app_r. Qed.

Lemma extends_ctrl h h' a c :
  extends h h' → ctrls h !! a = Some c → ctrls h' !! a = Some c.
Proof. intros [_ Hp] Ha. by eapply prefix_lookup_Some. Qed.

Lemma extends_ruleOf h h' tc r :
  extends h h' → ruleOf h tc = Some r → ruleOf h' tc = Some r.
Proof.
  intros Hext. unfold ruleOf. intros Hr.
  destruct (ctrls h !! tc) as [c|] eqn:Hc; [|done].
  rewrite (extends_ctrl _ _ _ _ Hext Hc). cbn in *.
  destruct Hext as [-> _]. done.
Qed.

Lemma extends_ruleValues h h' tcs vs :
  extends h h' → ruleValues h tcs = Some vs → ruleValues h' tcs = Some vs.
Proof.
  intros Hext. unfold ruleValues. rewrite !mapM_Some.
  intros Hvs. eapply Forall2_impl; [exact Hvs|].
  intros tc r. by apply extends_ruleOf.
Qed.

Lemma extends_honoursContract h h' reg :
  extends h h' → honoursContract h reg → honoursContract h' reg.
Proof.
  intros Hext Hc r g Hg. specialize (Hc r g Hg). unfold keepsRule in *.
  destruct (g r); try done.
  - destruct Hext as [-> _]. done.
  - by eapply extends_ruleOf.
Qed.

(** *** The scans read rule values *)

Lemma ruleValues_nil h : ruleValues h [] = Some [].
Proof. reflexivity. Qed.

Lemma ruleValues_cons h tc tcs :
  ruleValues h (tc :: tcs) = r ← ruleOf h tc; vs ← ruleValues h tcs; Some (r :: vs).
Proof. reflexivity. Qed.

Lemma ruleValues_cons_Some h tc tcs vs :
  ruleValues h (tc :: tcs) = Some vs ↔
  ∃ r vs', vs = r :: vs' ∧ ruleOf h tc = Some r ∧ ruleValues h tcs = Some vs'.
Proof.
  rewrite ruleValues_cons. split.
  - destruct (ruleOf h tc) as [r|]; [|done]. cbn.
    destruct (ruleValues h tcs) as [vs'|]; [|done]. cbn.
    intros [= <-]. eauto.
  - intros (r & vs' & -> & -> & ->). done.
Qed.

Lemma ruleValues_snoc h tcs vs tc r :
  ruleValues h tcs = Some vs → ruleOf h tc = Some r →
  ruleValues h (tcs ++ [tc]) = Some (vs ++ [r]).
Proof.
  unfold ruleValues. rewrite !mapM_Some. intros Hvs Hr.
  apply Forall2_app; [done|]. by repeat constructor.
Qed.

Lemma ruleValues_length h tcs vs :
  ruleValues h tcs = Some vs → length tcs = length vs.
Proof. unfold ruleValues. rewrite mapM_Some. apply Forall2_length. Qed.

Lemma ruleOf_Some h tc r :
  ruleOf h tc = Some r ↔
  ∃ c q, ctrls h !! tc = Some c ∧ rule c = Some q ∧ rules h !! q = Some r.
Proof.
  unfold ruleOf. split.
  - destruct (ctrls h !! tc) as [c|]; [|done]. cbn.
    destruct (rule c) as [q|] eqn:Hq; [|done]. cbn. eauto.
  - intros (c & q & -> & Hq & Hr). cbn. rewrite Hq. done.
Qed.

Lemma equalsTo_values h p q r1 r2 :
  valueOf (rules h) p = Some r1 → valueOf (rules h) q = Some r2 →
  equalsTo h p q = Ok (bool_decide (r1 = r2)).
Proof.
  unfold valueOf, equalsTo, derefRule. intros Hp Hq.
  destruct p as [a|]; [|done]. destruct q as [b|]; [|done].
  cbn in *. rewrite Hp. cbn. rewrite Hq. done.
Qed.

Lemma isDuplicate_spec h p r tcs vs :
  rules h !! p = Some r → ruleValues h tcs = Some vs →
  isDuplicate h p tcs = Ok (bool_decide (r ∈ vs)).
Proof.
  intros Hp. revert vs. induction tcs as [|tc tcs IH]; intros vs Hvs.
  - injection Hvs as <-. cbn. by rewrite bool_decide_eq_false_2 by apply not_elem_of_nil.
  - apply ruleValues_cons_Some in Hvs as (r' & vs' & -> & Hr' & Hvs').
    apply ruleOf_Some in Hr' as (c & q & Hc & Hq & Hr').
    cbn. unfold derefCtrl. rewrite Hc. cbn.
    rewrite (equalsTo_values h (Some p) (rule c) r r') by (by rewrite ?Hq).
    cbn. case_bool_decide as Heq.
    + subst r'. by rewrite bool_decide_eq_true_2 by left.
    + rewrite (IH _ Hvs'). f_equal. apply bool_decide_ext.
      rewrite elem_of_cons. tauto.
Qed.

Lemma hasEqual_spec h tc r mTcs vs :
  ruleOf h tc = Some r → ruleValues h mTcs = Some vs →
  hasEqual h tc mTcs = Ok (bool_decide (r ∈ vs)).
Proof.
  intros Hr. apply ruleOf_Some in Hr as (c & q & Hc & Hq & Hr).
  revert vs. induction mTcs as [|mTc mTcs IH]; intros vs Hvs.
  - injection Hvs as <-. cbn. by rewrite bool_decide_eq_false_2 by apply not_elem_of_nil.
  - apply ruleValues_cons_Some in Hvs as (r' & vs' & -> & Hr' & Hvs').
    apply ruleOf_Some in Hr' as (c' & q' & Hc' & Hq' & Hr').
    cbn. unfold derefCtrl. rewrite Hc. cbn. rewrite Hc'. cbn.
    rewrite (equalsTo_values h (rule c) (rule c') r r')
      by (by rewrite ?Hq, ?Hq').
    cbn. case_bool_decide as Heq.
    + subst r'. by rewrite bool_decide_eq_true_2 by left.
    + rewrite (IH _ Hvs'). f_equal. apply bool_decide_ext.
      rewrite elem_of_cons. tauto.
Qed.

Lemma eqCount_spec h tcs mTcs vs vs' :
  ruleValues h tcs = Some vs → ruleValues h mTcs = Some vs' →
  eqCount h tcs mTcs = Ok (length (filter (.∈ vs') vs)).
Proof.
  intros Hvs Hvs'. revert vs Hvs. induction tcs as [|tc tcs IH]; intros vs Hvs.
  - injection Hvs as <-. done.
  - apply ruleValues_cons_Some in Hvs as (r & vs0 & -> & Hr & Hvs0).
    cbn. rewrite (hasEqual_spec _ _ _ _ _ Hr Hvs'). cbn.
    rewrite (IH _ Hvs0). cbn.
    case_bool_decide; by case_decide.
Qed.

(** *** The loop of buildFlowMap *)

Lemma appendAll_elems {A} (s : slice A) l : elems (appendAll s l) = elems s ++ l.
Proof.
  revert s. induction l as [|x l IH]; intros s; cbn.
  - by rewrite app_nil_r.
  - unfold appendAll in IH. rewrite IH. cbn. by rewrite <- app_assoc.
Qed.

Lemma accepted_not_rejected reg r : accepted reg r → rejected reg r = false.
Proof.
  unfold accepted, rejected. intros [Hv Hg]%andb_prop_elim.
  apply bool_decide_unpack in Hv.
  rewrite bool_decide_eq_false_2 by (by intros ?). cbn.
  destruct (reg !! key r) as [g|]; [|done]. by destruct (g r).
Qed.

Lemma invalid_not_accepted reg r e :
  IsValidRule (Some r) = Some e → accepted reg r = false ∧ rejected reg r = true.
Proof.
  intros He. unfold accepted, rejected.
  rewrite bool_decide_eq_false_2 by congruence.
  by rewrite bool_decide_eq_true_2 by congruence.
Qed.

Lemma represents_isDuplicate h m acc p r :
  represents h m acc → rules h !! p = Some r →
  from_option (isDuplicate h p) (Ok false) (m !! Resource r)
  = Ok (bool_decide (r ∈ acc)).
Proof.
  intros Hrep Hp. destruct (Hrep (Resource r)) as [Hvs _].
  assert (r ∈ filter (λ v, Resource v = Resource r) acc ↔ r ∈ acc) as Hin
    by (rewrite list_elem_of_filter; tauto).
  destruct (m !! Resource r) as [tcs|]; cbn in *.
  - rewrite (isDuplicate_spec _ _ _ _ _ Hp Hvs). f_equal.
    by apply bool_decide_ext.
  - injection Hvs as Hvs. rewrite <- Hvs in Hin.
    rewrite bool_decide_eq_false_2; [done|].
    rewrite <- Hin. apply not_elem_of_nil.
Qed.

Lemma represents_insert h h' m acc r tsc :
  represents h m acc → extends h h' → ruleOf h' tsc = Some r →
  represents h' (<[Resource r := default [] (m !! Resource r) ++ [tsc]]> m)
    (acc ++ [r]).
Proof.
  intros Hrep Hext Htsc res. destruct (Hrep res) as [Hvs Hne].
  rewrite filter_app. destruct (decide (res = Resource r)) as [->|Hres].
  - rewrite lookup_insert_eq. cbn. split; [|by intros [= ?%app_nil_r_inv]; done].
    rewrite decide_True by done.
    apply (ruleValues_snoc h'); [|done]. by eapply extends_ruleValues.
  - rewrite lookup_insert_ne by done. split; [|done].
    cbn. rewrite decide_False, app_nil_r by done.
    by eapply extends_ruleValues.
Qed.

Lemma keepFirst_accepted reg acc l :
  Forall (λ v, accepted reg v) acc → Forall (λ v, accepted reg v) l →
  Forall (λ v, accepted reg v) (foldl keepFirst acc l).
Proof.
  revert acc. induction l as [|x l IH]; intros acc Hacc Hl; [done|].
  apply Forall_cons in Hl as [Hx Hl]. cbn. apply IH; [|done].
  unfold keepFirst. case_decide; [done|].
  apply Forall_app. split; [done|]. by apply Forall_singleton.
Qed.

Lemma keepFirst_NoDup acc l : NoDup acc → NoDup (foldl keepFirst acc l).
Proof.
  revert acc. induction l as [|x l IH]; intros acc Hacc; [done|].
  cbn. apply IH. unfold keepFirst. case_decide; [done|].
  apply NoDup_app. split; [done|]. split; [|apply NoDup_singleton].
  intros y Hy ->%list_elem_of_singleton. done.
Qed.

(** Decides the conditions [True] and [False] that a filter leaves. *)
Ltac decide_units :=
  repeat first
    [ rewrite (decide_True (P:=True)) by done
    | rewrite (decide_False (P:=False)) by (by intros ?)
    | rewrite (decide_True (P:=Is_true true)) by done
    | rewrite (decide_False (P:=Is_true false)) by (by intros ?) ].

(** The loop, run from a candidate map that represents [acc]: it panics
    exactly when a rule dangles or a generator it reaches panics;
    otherwise it appends the rejected rules to [failedRules] and the
    first occurrences of the accepted ones to the map. *)
Lemma buildFlowMapLoop_spec reg rs : ∀ m failed h acc,
  honoursContract h reg → represents h m acc →
  Forall (λ v, accepted reg v) acc →
  match buildFlowMapLoop reg rs m failed h with
  | (Ok (m', failed'), h') =>
    runsClean reg (rules h) rs ∧ extends h h'
    ∧ failed' = appendAll failed (filter (λ p, rejectedPtr reg (rules h) p) rs)
    ∧ represents h' m'
        (foldl keepFirst acc
           (filter (λ v, accepted reg v) (inputValues (rules h) rs)))
  | (Panic _, h') => ¬ runsClean reg (rules h) rs ∧ extends h h'
  end.
Proof.
  induction rs as [|[p|] rs IH]; intros m failed h acc Hcon Hrep Hacc.
  - cbn. split_and!; try done. by apply Forall_nil.
  - cbn [buildFlowMapLoop derefRule].
    destruct (rules h !! p) as [r|] eqn:Hp.
    2:{ split; [|apply extends_refl].
        intros [(r & Hr & _) _]%Forall_cons. congruence. }
    assert (inputValues (rules h) (Some p :: rs) = r :: inputValues (rules h) rs)
      as Hvals by (unfold inputValues; cbn; by rewrite Hp).
    assert (rejectedPtr reg (rules h) (Some p) = rejected reg r) as Hrej
      by (unfold rejectedPtr; cbn; by rewrite Hp).
    rewrite Hvals, !filter_cons, Hrej.
    destruct (IsValidRule (Some r)) as [e|] eqn:Hv.
    { destruct (invalid_not_accepted reg r e Hv) as [Ha Hr].
      rewrite Ha, Hr. decide_units.
      specialize (IH m (append failed (Some p)) h acc Hcon Hrep Hacc).
      destruct (buildFlowMapLoop reg rs m (append failed (Some p)) h)
        as [[[m' failed']|msg] h'].
      - destruct IH as (Hclean & Hext & Hf & Hm). split_and!; try done.
        apply Forall_cons. split; [|done]. exists r. split; [done|].
        intros Hv'. congruence.
      - destruct IH as [Hclean Hext]. split; [|done].
        intros [_ ?]%Forall_cons. done. }
    rewrite (represents_isDuplicate _ _ _ _ _ Hrep Hp).
    case_bool_decide as Hin.
    { assert (Is_true (accepted reg r)) as Ha
        by (by eapply Forall_forall in Hacc).
      rewrite (accepted_not_rejected _ _ Ha).
      rewrite (decide_True (P:=Is_true (accepted reg r))) by done.
      decide_units. cbn [foldl].
      replace (keepFirst acc r) with acc
        by (unfold keepFirst; by rewrite decide_True).
      specialize (IH m failed h acc Hcon Hrep Hacc).
      destruct (buildFlowMapLoop reg rs m failed h) as [[[m' failed']|msg] h'].
      - destruct IH as (Hclean & Hext & Hf & Hm). split_and!; try done.
        apply Forall_cons. split; [|done]. exists r. split; [done|].
        intros _ g msg Hg Hgr. unfold accepted in Ha.
        apply andb_prop_elim in Ha as [_ Ha]. rewrite Hg, Hgr in Ha. done.
      - destruct IH as [Hclean Hext]. split; [|done].
        intros [_ ?]%Forall_cons. done. }
    assert (accepted reg r
            = match reg !! key r with Some g => builds (g r) | None => false end)
      as Hacc_r by (unfold accepted; by rewrite bool_decide_eq_true_2).
    assert (rejected reg r
            = match reg !! key r with
              | None => true
              | Some g => match g r with GenNil => true | _ => false end
              end)
      as Hrej_r by (unfold rejected; by rewrite bool_decide_eq_false_2 by (by intros ?)).
    rewrite Hacc_r, Hrej_r.
    destruct (reg !! key r) as [g|] eqn:Hg.
    2:{ decide_units.
        specialize (IH m (append failed (Some p)) h acc Hcon Hrep Hacc).
        destruct (buildFlowMapLoop reg rs m (append failed (Some p)) h)
          as [[[m' failed']|msg] h'].
        - destruct IH as (Hclean & Hext & Hf & Hm). split_and!; try done.
          apply Forall_cons. split; [|done]. exists r. split; [done|].
          intros _ g msg Hg'. congruence.
        - destruct IH as [Hclean Hext]. split; [|done].
          intros [_ ?]%Forall_cons. done. }
    pose proof (Hcon r g Hg) as Hkeep. unfold keepsRule in Hkeep.
    destruct (g r) as [msg| |mk|tsc] eqn:Hgr.
    + split; [|apply extends_refl].
      intros [(r' & Hr' & Hnp) _]%Forall_cons.
      assert (r' = r) as -> by congruence. by eapply Hnp.
    + cbn [builds]. decide_units.
      specialize (IH m (append failed (Some p)) h acc Hcon Hrep Hacc).
      destruct (buildFlowMapLoop reg rs m (append failed (Some p)) h)
        as [[[m' failed']|msg] h'].
      * destruct IH as (Hclean & Hext & Hf & Hm). split_and!; try done.
        apply Forall_cons. split; [|done]. exists r. split; [done|].
        intros _ g' msg Hg'. congruence.
      * destruct IH as [Hclean Hext]. split; [|done].
        intros [_ ?]%Forall_cons. done.
    + cbn [builds allocCtrl]. decide_units.
      cbn [foldl].
      replace (keepFirst acc r) with (acc ++ [r])
        by (unfold keepFirst; by rewrite decide_False).
      set (h1 := {| rules := rules h; ctrls := ctrls h ++ [mk p] |}).
      assert (extends h h1) as Hext1 by apply (extends_allocCtrl (mk p) h).
      assert (ruleOf h1 (length (ctrls h)) = Some r) as Htsc.
      { destruct (Hkeep p Hp) as (q & Hq & Hr). apply ruleOf_Some.
        exists (mk p), q. split; [|done]. cbn. apply list_lookup_middle. done. }
      specialize (IH (<[Resource r := default [] (m !! Resource r)
                                       ++ [length (ctrls h)]]> m)
                     failed h1 (acc ++ [r])
                     (extends_honoursContract _ _ _ Hext1 Hcon)
                     (represents_insert _ _ _ _ _ _ Hrep Hext1 Htsc)).
      destruct (buildFlowMapLoop reg rs _ failed h1) as [[[m' failed']|msg] h'].
      * destruct IH as (Hclean & Hext & Hf & Hm).
        { apply Forall_app. split; [done|]. apply Forall_singleton.
          rewrite Hacc_r. done. }
        split_and!; try done.
        -- apply Forall_cons. split; [|done]. exists r. split; [done|].
           intros _ g' msg Hg'. congruence.
        -- by eapply extends_trans.
      * destruct IH as [Hclean Hext].
        { apply Forall_app. split; [done|]. apply Forall_singleton.
          rewrite Hacc_r. done. }
        split; [|by eapply extends_trans].
        intros [_ ?]%Forall_cons. done.
    + cbn [builds]. decide_units.
      cbn [foldl].
      replace (keepFirst acc r) with (acc ++ [r])
        by (unfold keepFirst; by rewrite decide_False).
      specialize (IH (<[Resource r := default [] (m !! Resource r) ++ [tsc]]> m)
                     failed h (acc ++ [r]) Hcon
                     (represents_insert _ _ _ _ _ _ Hrep (extends_refl h) Hkeep)).
      destruct (buildFlowMapLoop reg rs _ failed h) as [[[m' failed']|msg] h'].
      * destruct IH as (Hclean & Hext & Hf & Hm).
        { apply Forall_app. split; [done|]. apply Forall_singleton.
          rewrite Hacc_r. done. }
        split_and!; try done.
        apply Forall_cons. split; [|done]. exists r. split; [done|].
        intros _ g' msg Hg'. congruence.
      * destruct IH as [Hclean Hext].
        { apply Forall_app. split; [done|]. apply Forall_singleton.
          rewrite Hacc_r. done. }
        split; [|done].
        intros [_ ?]%Forall_cons. done.
  - cbn [buildFlowMapLoop]. specialize (IH m failed h acc Hcon Hrep Hacc).
    destruct (buildFlowMapLoop reg rs m failed h) as [[[m' failed']|msg] h'].
    + destruct IH as (Hclean & Hext & Hf & Hm). split_and!; try done.
      apply Forall_cons. done.
    + destruct IH as [Hclean Hext]. split; [|done].
      intros [_ ?]%Forall_cons. done.
Qed.

Lemma represents_empty h : represents h ∅ [].
Proof. intros res. by rewrite lookup_empty. Qed.

(** [buildFlowMap] under the generator contract. *)
Lemma buildFlowMap_spec reg rs h :
  honoursContract h reg →
  match buildFlowMap reg rs h with
  | (Ok (m, failed), h') =>
    runsClean reg (rules h) (elems rs) ∧ extends h h'
    ∧ failed = appendAll NilSlice
                 (filter (λ p, rejectedPtr reg (rules h) p) (elems rs))
    ∧ represents h' m
        (firstSeen (filter (λ v, accepted reg v) (inputValues (rules h) (elems rs))))
  | (Panic _, h') => ¬ runsClean reg (rules h) (elems rs) ∧ extends h h'
  end.
Proof.
  intros Hcon. unfold buildFlowMap. case_decide as Hlen.
  - unfold len in Hlen. apply nil_length_inv in Hlen. rewrite Hlen.
    split_and!; [by apply Forall_nil|apply extends_refl|done|].
    apply represents_empty.
  - apply (buildFlowMapLoop_spec reg (elems rs) ∅ NilSlice h []);
      [done|apply represents_empty|by apply Forall_nil].
Qed.

(** *** Change detection *)

Lemma filter_all_length {A} (P : A → Prop) `{∀ x, Decision (P x)} (l : list A) :
  length (filter P l) = length l ↔ Forall P l.
Proof.
  split.
  - intros Hlen. apply Forall_forall. intros x Hx.
    destruct (decide (P x)) as [|Hn]; [done|].
    pose proof (length_filter_lt P l x Hx Hn). lia.
  - induction 1 as [|x l Hx Hl IH]; [done|].
    rewrite filter_cons, decide_True by done. cbn. by rewrite IH.
Qed.

Lemma diffLoop_spec h m entries :
  Forall (λ e, is_Some (ruleValues h e.2)) entries →
  (∀ res mTcs, m !! res = Some mTcs → is_Some (ruleValues h mTcs)) →
  ∃ b, diffLoop h m entries = Ok b
       ∧ (b = false ↔ Forall (entryMatched h m) entries).
Proof.
  intros Hentries Hm. induction Hentries as [|[res tcs] entries [vs Hvs] _ IH].
  - exists false. split; [done|]. split; [|done]. intros _. by apply Forall_nil.
  - cbn [diffLoop].
    destruct (m !! res) as [mTcs|] eqn:Hres.
    2:{ exists true. split; [done|]. split; [done|].
        intros [(? & ? & ? & Hl & _) _]%Forall_cons. cbn [fst snd] in Hl. congruence. }
    case_decide as Hlen.
    { exists true. split; [done|]. split; [done|].
      intros [(? & ? & ? & Hl & Hlen' & _) _]%Forall_cons. cbn [fst snd] in *.
      congruence. }
    destruct (Hm _ _ Hres) as [vs' Hvs']. cbn [snd] in Hvs.
    rewrite (eqCount_spec _ _ _ _ _ Hvs Hvs'). cbn.
    rewrite (ruleValues_length _ _ _ Hvs).
    case_decide as Hcount.
    { exists true. split; [done|]. split; [done|].
      intros [(x & ws & ws' & Hl & _ & Hws & Hws' & Hincl) _]%Forall_cons.
      cbn [fst snd] in *. assert (ws = vs) as -> by congruence.
      assert (ws' = vs') as -> by congruence.
      assert (length (filter (.∈ vs') vs) = length vs); [|lia].
      apply (proj2 (filter_all_length (.∈ vs') vs)). by apply Forall_forall. }
    destruct IH as (b & Hb & Hiff). exists b. split; [done|].
    rewrite Hiff, Forall_cons. split; [|tauto]. intros Hall. split; [|done].
    exists mTcs, vs, vs'. split_and!; try done.
    apply Forall_forall. apply (proj1 (filter_all_length (.∈ vs') vs)).
    pose proof (length_filter (.∈ vs') vs). lia.
Qed.

Lemma range_elem m res tcs : (res, tcs) ∈ range m ↔ m !! res = Some tcs.
Proof. by rewrite range_perm, elem_of_map_to_list. Qed.

Lemma range_empty m : size m = 0%nat → range m = [].
Proof.
  intros ->%map_size_empty_inv. apply Permutation_nil_r.
  by rewrite range_perm, map_to_list_empty.
Qed.

Lemma NoDup_subset_length_eq {A} (l k : list A) :
  NoDup l → length l = length k → (∀ x, x ∈ l → x ∈ k) → ∀ x, x ∈ l ↔ x ∈ k.
Proof.
  intros Hl Hlen Hincl x.
  assert (l ≡ₚ k) as Hperm.
  { apply submseteq_length_Permutation; [|lia]. by apply NoDup_submseteq. }
  by rewrite Hperm.
Qed.

(** The change detection, for maps whose lists carry pairwise different
    rules: it reports no change exactly when the two maps hold the same
    sets of rule values. *)
Lemma rulesChanged_spec h tcMap m :
  distinctRules h tcMap → distinctRules h m →
  ∃ b, rulesChanged h tcMap m = Ok b ∧ (b = false ↔ sameRuleSets h tcMap m).
Proof.
  intros Hold Hnew. unfold rulesChanged. case_decide as Hsize.
  { exists true. split; [done|]. split; [done|]. intros [Hdom _].
    rewrite <- !(size_dom (D:=gset string)), Hdom in Hsize. done. }
  destruct (diffLoop_spec h m (range tcMap)) as (b & Hb & Hiff).
  { apply Forall_forall. intros [res tcs] Hin%range_elem.
    destruct (Hold _ _ Hin) as (vs & Hvs & _). cbn [snd]. by rewrite Hvs. }
  { intros res mTcs Hres. destruct (Hnew _ _ Hres) as (vs & Hvs & _).
    by rewrite Hvs. }
  exists b. split; [done|]. rewrite Hiff, Forall_forall. split.
  - intros Hall.
    assert (dom tcMap ⊆ dom m) as Hsub.
    { intros res [tcs Htcs]%elem_of_dom. apply range_elem in Htcs.
      destruct (Hall _ Htcs) as (mTcs & _ & _ & Hres & _). cbn [fst snd] in Hres.
      apply elem_of_dom. done. }
    split.
    { apply set_subseteq_size_eq; [done|]. rewrite !size_dom. lia. }
    intros res tcs1 tcs2 H1 H2. pose proof H1 as Hin. apply range_elem in Hin.
    destruct (Hall _ Hin) as (mTcs & vs & vs' & Hres & Hlen & Hvs & Hvs' & Hincl).
    cbn [fst snd] in *. assert (mTcs = tcs2) as -> by congruence.
    exists vs, vs'. split_and!; try done.
    destruct (Hold _ _ H1) as (ws & Hws & Hnd).
    assert (ws = vs) as -> by congruence.
    apply NoDup_subset_length_eq; [done| |done].
    rewrite <- (ruleValues_length _ _ _ Hvs), <- (ruleValues_length _ _ _ Hvs').
    done.
  - intros [Hdom Hsame] [res tcs] Hin%range_elem.
    assert (is_Some (m !! res)) as [mTcs Hres].
    { apply elem_of_dom. rewrite <- Hdom. apply elem_of_dom. done. }
    destruct (Hsame _ _ _ Hin Hres) as (vs & vs' & Hvs & Hvs' & Heq).
    exists mTcs, vs, vs'. cbn. split_and!; try done; [|by intros r; apply Heq].
    rewrite (ruleValues_length _ _ _ Hvs), (ruleValues_length _ _ _ Hvs').
    apply Permutation_length, NoDup_Permutation; [| |done].
    + destruct (Hold _ _ Hin) as (ws & Hws & Hnd). congruence.
    + destruct (Hnew _ _ Hres) as (ws & Hws & Hnd). congruence.
Qed.

Lemma onRuleUpdateBody_Ok rules st ret failed m h' :
  onRuleUpdateBody rules st = (Ok (ret, failed, m), h') ↔
  buildFlowMap (tcGenFuncMap st) rules (heap st) = (Ok (m, failed), h')
  ∧ rulesChanged h' (tcMap st) m = Ok ret.
Proof.
  unfold onRuleUpdateBody.
  destruct (buildFlowMap _ _ _) as [[[m0 failed0]|msg] h0].
  - destruct (rulesChanged h0 (tcMap st) m0) as [b|msg] eqn:Hb; cbn.
    + split.
      * intros [= <- <- <- <-]. done.
      * intros [[= <- <- <-] Hb']. rewrite Hb in Hb'. by injection Hb' as ->.
    + split; [done|]. intros [[= <- <- <-] Hb']. congruence.
  - split; [done|]. by intros [? _].
Qed.

Lemma LoadRules_Ok rules st ret failed st' :
  LoadRules rules st = ((ret, None, failed), st') ↔
  ∃ m, onRuleUpdateBody rules st = (Ok (ret, failed, m), heap st')
       ∧ tcGenFuncMap st' = tcGenFuncMap st ∧ tcMap st' = m.
Proof.
  unfold LoadRules, onRuleUpdate.
  destruct (onRuleUpdateBody rules st) as [[[[ret0 failed0] m0]|msg] h0].
  - split.
    + intros [= <- <- <-]. by exists m0.
    + intros (m & [= <- <- <- ->] & Hreg & Hm). destruct st'. cbn in *.
      by subst.
  - split; [done|]. by intros (m & ? & _).
Qed.

(** C2: when every controller list of the effective map and of the
    candidate map carries pairwise different rules, [LoadRules] returns
    [changed = false] if and only if the two maps have the same
    resources and, for each resource, the same set of rule values,
    whatever the order of the lists. *)
Theorem changed_iff_rule_sets_differ (rules : slice (option addr)) (st : State)
    (m : TrafficControllerMap) (failedRules : slice (option addr)) (h' : Heap) :
  buildFlowMap (tcGenFuncMap st) rules (heap st) = (Ok (m, failedRules), h') →
  distinctRules h' (tcMap st) → distinctRules h' m →
  ∃ ret st', LoadRules rules st = ((ret, None, failedRules), st')
             ∧ (ret = false ↔ sameRuleSets h' (tcMap st) m).
Proof.
  intros Hbuild Hold Hnew.
  destruct (rulesChanged_spec h' (tcMap st) m Hold Hnew) as (b & Hb & Hiff).
  exists b, {| heap := h'; tcGenFuncMap := tcGenFuncMap st; tcMap := m |}.
  split; [|done]. apply LoadRules_Ok. exists m. split; [|done].
  by apply onRuleUpdateBody_Ok.
Qed.

(** *** What buildFlowMap keeps and what it rejects *)


(** *** Deduplication and idempotence *)

Lemma represents_extends h h' m acc :
  represents h m acc → extends h h' → represents h' m acc.
Proof.
  intros Hrep Hext res. destruct (Hrep res) as [Hvs Hne].
  split; [|done]. by eapply extends_ruleValues.
Qed.

Lemma represents_distinct h m acc :
  represents h m acc → NoDup acc → distinctRules h m.
Proof.
  intros Hrep Hnd res tcs Hres. destruct (Hrep res) as [Hvs _].
  rewrite Hres in Hvs. eexists. split; [exact Hvs|]. by apply NoDup_filter.
Qed.

Lemma represents_lookup_None h m acc res :
  represents h m acc →
  m !! res = None ↔ filter (λ v, Resource v = res) acc = [].
Proof.
  intros Hrep. destruct (Hrep res) as [Hvs Hne]. split.
  - intros Hres. rewrite Hres in Hvs. by injection Hvs.
  - intros Hnil. rewrite Hnil in Hvs.
    destruct (m !! res) as [[|tc tcs]|]; [done| |done].
    apply ruleValues_length in Hvs. done.
Qed.



Lemma firstSeen_NoDup l : NoDup (firstSeen l).
Proof. apply keepFirst_NoDup, NoDup_nil_2. Qed.

(** C4 (amended): for generators that keep the rule they are handed,
    after a
    [LoadRules] without error no two controllers of a resource carry
    equal rules; and [LoadRules([r, r])] on an empty effective map, for
    two pointers to the same accepted rule value, leaves one controller
    for the rule's resource, returns [changed = true], no error and nil
    [failedRules]. *)
Theorem LoadRules_deduplicates (st : State) :
  honoursContract (heap st) (tcGenFuncMap st) →
  (∀ rules ret failedRules st',
     LoadRules rules st = ((ret, None, failedRules), st') →
     distinctRules (heap st') (tcMap st'))
  ∧ (∀ p1 p2 r,
       tcMap st = ∅ →
       Flow.rules (heap st) !! p1 = Some r → Flow.rules (heap st) !! p2 = Some r →
       accepted (tcGenFuncMap st) r →
       ∃ tc st',
         LoadRules (Slice [Some p1; Some p2]) st = ((true, None, NilSlice), st')
         ∧ tcMap st' = {[Resource r := [tc]]}
         ∧ ruleOf (heap st') tc = Some r).
Proof.
  intros Hcon. split.
  - intros rs ret failed st' (m & Hbody & _ & Hm)%LoadRules_Ok.
    apply onRuleUpdateBody_Ok in Hbody as [Hbuild _].
    pose proof (buildFlowMap_spec (tcGenFuncMap st) rs (heap st) Hcon) as Hspec.
    rewrite Hbuild in Hspec. destruct Hspec as (_ & _ & _ & Hrep).
    rewrite Hm. eapply represents_distinct; [done|]. apply firstSeen_NoDup.
  - intros p1 p2 r Hempty Hp1 Hp2 Hacc.
    set (rs := Slice [Some p1; Some p2]).
    pose proof (buildFlowMap_spec (tcGenFuncMap st) rs (heap st) Hcon) as Hspec.
    assert (runsClean (tcGenFuncMap st) (Flow.rules (heap st)) (elems rs)) as Hclean.
    { assert (∀ p, Flow.rules (heap st) !! p = Some r →
                   ∃ r0, Flow.rules (heap st) !! p = Some r0
                         ∧ (IsValidRule (Some r0) = None →
                            ∀ g msg, tcGenFuncMap st !! key r0 = Some g →
                                     g r0 ≠ GenPanic msg)) as Hone.
      { intros p Hp. exists r. split; [done|]. intros _ g msg Hg Hgr.
        unfold accepted in Hacc. apply andb_prop_elim in Hacc as [_ Hacc].
        rewrite Hg, Hgr in Hacc. done. }
      repeat (apply Forall_cons; split; [by apply Hone|]). by apply Forall_nil. }
    destruct (buildFlowMap (tcGenFuncMap st) rs (heap st))
      as [[[m failed]|msg] h'] eqn:Hbuild; [|by destruct Hspec].
    destruct Hspec as (_ & Hext & Hfailed & Hrep).
    assert (failed = NilSlice) as ->.
    { rewrite Hfailed. cbn [elems rs]. rewrite !filter_cons, filter_nil.
      unfold rejectedPtr. cbn. rewrite Hp1, Hp2.
      rewrite (accepted_not_rejected _ _ Hacc). by decide_units. }
    assert (firstSeen (filter (λ v, accepted (tcGenFuncMap st) v)
                         (inputValues (Flow.rules (heap st)) (elems rs))) = [r])
      as Hkept.
    { unfold inputValues. cbn. rewrite Hp1, Hp2. cbn.
      rewrite !(decide_True (P:=Is_true (accepted _ r))) by done.
      cbn. unfold keepFirst at 2.
      rewrite decide_False by apply not_elem_of_nil. cbn.
      unfold keepFirst. rewrite decide_True; [done|]. by apply list_elem_of_singleton. }
    rewrite Hkept in Hrep.
    destruct (Hrep (Resource r)) as [Hvs Hne].
    cbn in Hvs. rewrite decide_True in Hvs by done.
    destruct (m !! Resource r) as [tcs|] eqn:Hres; [|done].
    cbn in Hvs. destruct tcs as [|tc [|tc' tcs]];
      [done| |by apply ruleValues_length in Hvs].
    apply ruleValues_cons_Some in Hvs as (r' & vs' & [= <- <-] & Htc & _).
    assert (m = {[Resource r := [tc]]}) as Hm.
    { apply map_eq. intros res. destruct (decide (res = Resource r)) as [->|Hne'].
      - by rewrite lookup_singleton_eq.
      - rewrite lookup_singleton_ne by done.
        apply (represents_lookup_None _ _ _ _ Hrep). cbn.
        by rewrite decide_False. }
    exists tc, {| heap := h'; tcGenFuncMap := tcGenFuncMap st; tcMap := m |}.
    split_and!; [|done|done].
    apply LoadRules_Ok. exists m. split; [|done].
    apply onRuleUpdateBody_Ok. split; [done|].
    unfold rulesChanged. rewrite Hempty, Hm, map_size_empty, map_size_singleton.
    done.
Qed.

(** *** What the queries return *)

Lemma mapM_option_app {A B} (f : A → option B) l1 l2 k1 k2 :
  mapM f l1 = Some k1 → mapM f l2 = Some k2 → mapM f (l1 ++ l2) = Some (k1 ++ k2).
Proof. rewrite !mapM_Some. apply Forall2_app. Qed.

Lemma mapM_option_length {A B} (f : A → option B) l k :
  mapM f l = Some k → length l = length k.
Proof. rewrite mapM_Some. apply Forall2_length. Qed.

(** The copy loop, when every pointer of the list points to a rule
    cell: it allocates one cell per rule, in order. *)
Lemma copyRules_Some ps : ∀ h vs,
  mapM (valueOf (rules h)) ps = Some vs →
  copyRules ps h
  = (Ok (seq (length (rules h)) (length ps)),
     {| rules := rules h ++ vs; ctrls := ctrls h |}).
Proof.
  induction ps as [|p ps IH]; intros h vs Hvs.
  - injection Hvs as <-. cbn. rewrite app_nil_r. by destruct h.
  - apply mapM_Some, Forall2_cons_inv_l in Hvs as (r & vs' & Hp & Hvs' & ->).
    destruct p as [a|]; [|done]. cbn in Hp.
    cbn [copyRules derefRule]. rewrite Hp. cbn [allocRule].
    rewrite (IH {| rules := rules h ++ [r]; ctrls := ctrls h |} vs').
    + cbn. rewrite length_app, <- app_assoc. cbn. by rewrite Nat.add_1_r.
    + apply mapM_Some. eapply Forall2_impl; [exact Hvs'|].
      intros [q|] v; [|done]. cbn. intros Hq. by apply lookup_app_l_Some.
Qed.

(** The copy loop reads the rule cells only. *)
Lemma copyRules_rules ps : ∀ h h' r h2,
  rules h' = rules h → copyRules ps h = (r, h2) →
  copyRules ps h' = (r, {| rules := rules h2; ctrls := ctrls h' |}).
Proof.
  induction ps as [|p ps IH]; intros h h' r h2 Hr.
  - cbn. intros [= <- <-]. rewrite <- Hr. by destruct h'.
  - cbn [copyRules]. unfold derefRule. rewrite Hr.
    destruct p as [a|]; [|intros [= <- <-]; rewrite <- Hr; by destruct h'].
    destruct (rules h !! a) as [v|];
      [|intros [= <- <-]; rewrite <- Hr; by destruct h'].
    cbn [allocRule]. rewrite Hr.
    destruct (copyRules ps {| rules := rules h ++ [v]; ctrls := ctrls h |})
      as [r0 h0] eqn:Hc.
    rewrite (IH {| rules := rules h ++ [v]; ctrls := ctrls h |}
                {| rules := rules h ++ [v]; ctrls := ctrls h' |} _ _ eq_refl Hc).
    destruct r0; by intros [= <- <-].
Qed.

Lemma readRules_fresh store vs :
  readRules {| rules := store ++ vs; ctrls := [] |} (seq (length store) (length vs))
  = Some <$> vs.
Proof.
  unfold readRules. cbn. revert store. induction vs as [|v vs IH]; intros store.
  - done.
  - cbn. rewrite list_lookup_middle by done. f_equal.
    specialize (IH (store ++ [v])). rewrite length_app, <- app_assoc in IH.
    cbn in IH. rewrite Nat.add_1_r in IH. done.
Qed.

Lemma readRules_rules h h' l : rules h = rules h' → readRules h l = readRules h' l.
Proof. unfold readRules. by intros ->. Qed.

Lemma returned_copySlice st s vs :
  mapM (valueOf (rules (heap st))) (elems s) = Some vs →
  returned (copySlice (Ok s) st) = Some (Some <$> vs).
Proof.
  intros Hvs. unfold copySlice. rewrite (copyRules_Some _ _ _ Hvs).
  cbn [fmap result_fmap returned withHeap heap elems]. f_equal.
  rewrite (mapM_option_length _ _ _ Hvs).
  rewrite <- (readRules_fresh (rules (heap st)) vs). by apply readRules_rules.
Qed.
(** *** Failure of a reload *)

Lemma buildFlowMapLoop_extends reg rs : ∀ m failed h r h',
  buildFlowMapLoop reg rs m failed h = (r, h') → extends h h'.
Proof.
  induction rs as [|[p|] rs IH]; intros m failed h r h'.
  - intros [= <- <-]. apply extends_refl.
  - cbn [buildFlowMapLoop]. destruct (derefRule h (Some p)) as [v|];
      [|intros [= <- <-]; apply extends_refl].
    destruct (IsValidRule (Some v)); [by apply IH|].
    destruct (from_option _ _ _) as [[|]|]; [by apply IH| |
      intros [= <- <-]; apply extends_refl].
    destruct (reg !! key v) as [g|]; [|by apply IH].
    destruct (g v) as [msg| |mk|tsc];
      [intros [= <- <-]; apply extends_refl|by apply IH| |by apply IH].
    cbn [allocCtrl]. intros Hloop. apply IH in Hloop.
    eapply extends_trans; [|exact Hloop]. apply (extends_allocCtrl (mk p) h).
  - cbn [buildFlowMapLoop]. by apply IH.
Qed.



(** A generator that panics on the one rule of the list makes
    [buildFlowMap] panic with the generator's message. *)
Lemma buildFlowMap_generator_panics reg p r g msg h :
  rules h !! p = Some r → IsValidRule (Some r) = None →
  reg !! key r = Some g → g r = GenPanic msg →
  buildFlowMap reg (Slice [Some p]) h = (Panic msg, h).
Proof.
  intros Hp Hv Hg Hgr. unfold buildFlowMap. rewrite decide_False by done.
  cbn [elems buildFlowMapLoop derefRule]. rewrite Hp, Hv, lookup_empty.
  cbn [from_option]. by rewrite Hg, Hgr.
Qed.

(** *** Copies *)


Lemma wfPtrs_keeps store store' ps :
  wfPtrs store ps → (∀ q v, store !! q = Some v → store' !! q = Some v) →
  wfPtrs store' ps.
Proof.
  intros Hwf Hkeep. eapply Forall_impl; [exact Hwf|]. intros p Hp a ->.
  destruct (Hp a eq_refl) as [v Hv]. exists v. by apply Hkeep.
Qed.



Lemma mapM_omap store l :
  wfPtrs store l → None ∉ l →
  mapM (valueOf store) l = Some (omap (valueOf store) l).
Proof.
  intros Hwf. induction Hwf as [|p ps Hp _ IH]; intros Hnil; [done|].
  destruct p as [a|]; [|exfalso; apply Hnil; by left].
  destruct (Hp a eq_refl) as [v Hv]. cbn. rewrite Hv. cbn.
  rewrite IH; [done|]. intros ?. apply Hnil. by right.
Qed.

Lemma list_bind_ext_Forall {A B} (f g : A → list B) l :
  Forall (λ x, f x = g x) l → l ≫= f = l ≫= g.
Proof. induction 1 as [|x l Hx _ IH]; [done|]. by rewrite !bind_cons, Hx, IH. Qed.

Lemma ptrsOf_cons h tc tcs c :
  ctrls h !! tc = Some c →
  ptrsOf h (tc :: tcs)
  = match rule c with Some q => [Some q] | None => [] end ++ ptrsOf h tcs.
Proof. intros Hc. unfold ptrsOf. by rewrite bind_cons, Hc. Qed.

Lemma rulesOfList_ptrs h tcs :
  Forall (λ tc, is_Some (ctrls h !! tc)) tcs →
  rulesOfList h tcs = Ok (ptrsOf h tcs).
Proof.
  induction 1 as [|tc tcs [c Hc] _ IH]; [done|].
  cbn. unfold derefCtrl at 1. rewrite Hc, IH. cbn.
  rewrite (ptrsOf_cons _ _ _ _ Hc). by destruct (rule c).
Qed.

Lemma ptrsOf_wf h tcs :
  Forall (λ tc, ∃ c, ctrls h !! tc = Some c
                     ∧ ∀ q, rule c = Some q → is_Some (rules h !! q)) tcs →
  wfPtrs (rules h) (ptrsOf h tcs) ∧ None ∉ ptrsOf h tcs.
Proof.
  induction 1 as [|tc tcs (c & Hc & Hq) _ [IH1 IH2]].
  - split; [by apply Forall_nil|apply not_elem_of_nil].
  - rewrite (ptrsOf_cons _ _ _ _ Hc). destruct (rule c) as [q|]; [|done].
    split.
    + apply Forall_cons. split; [|done]. intros a [= <-]. by apply Hq.
    + cbn [app]. rewrite elem_of_cons. by intros [?|?].
Qed.


Lemma noDangling_entry h m res tcs :
  noDangling h m → m !! res = Some tcs →
  Forall (λ tc, ∃ c, ctrls h !! tc = Some c
                     ∧ ∀ q, rule c = Some q → is_Some (rules h !! q)) tcs.
Proof. intros Hnd Hres. apply Forall_forall. intros tc Htc. by eapply Hnd. Qed.

Lemma noDangling_allocated h m res tcs :
  noDangling h m → m !! res = Some tcs →
  Forall (λ tc, is_Some (ctrls h !! tc)) tcs.
Proof.
  intros Hnd Hres. apply Forall_forall. intros tc Htc.
  destruct (Hnd _ _ _ Hres Htc) as (c & -> & _). done.
Qed.



Lemma rulesFromLoop_ptrs h m entries :
  noDangling h m → (∀ e, e ∈ entries → m !! e.1 = Some e.2) →
  rulesFromLoop h entries = Ok (entries ≫= λ e, ptrsOf h e.2)
  ∧ wfPtrs (rules h) (entries ≫= λ e, ptrsOf h e.2)
  ∧ None ∉ (entries ≫= λ e, ptrsOf h e.2).
Proof.
  intros Hnd. induction entries as [|[res rs] entries IH]; intros Hin.
  - split_and!; [done|by apply Forall_nil|apply not_elem_of_nil].
  - assert (m !! res = Some rs) as Hres by (apply (Hin (res, rs)); by left).
    destruct IH as (Htl & Hwf' & Hnil'); [intros; apply Hin; by right|].
    destruct (ptrsOf_wf h rs (noDangling_entry _ _ _ _ Hnd Hres)) as [Hwf Hnil].
    rewrite bind_cons. cbn [snd rulesFromLoop].
    rewrite (rulesOfList_ptrs h rs (noDangling_allocated _ _ _ _ Hnd Hres)), Htl.
    split_and!; [done| |].
    + by apply Forall_app.
    + rewrite elem_of_app. tauto.
Qed.

(** What [GetRules] returns in a state without dangling pointers: the
    values of the rules that the controllers point to, resource by
    resource in the order of the traversal. *)
Lemma GetRules_spec st :
  noDangling (heap st) (tcMap st) →
  returned (GetRules st)
  = Some (Some <$> omap (valueOf (rules (heap st)))
                     (range (tcMap st) ≫= λ e, ptrsOf (heap st) e.2)).
Proof.
  intros Hnd.
  destruct (rulesFromLoop_ptrs (heap st) (tcMap st) (range (tcMap st)) Hnd)
    as (Hl & Hwf & Hnil).
  { intros [res tcs]. apply range_elem. }
  unfold GetRules, getRules, rulesFrom. case_decide as Hsize.
  - rewrite (range_empty _ Hsize). by apply returned_copySlice.
  - rewrite Hl. cbn [fmap result_fmap]. apply returned_copySlice.
    by apply mapM_omap.
Qed.

Lemma GetRules_total st :
  noDangling (heap st) (tcMap st) → ∃ s st1, GetRules st = (Ok s, st1).
Proof.
  intros Hnd. pose proof (GetRules_spec st Hnd) as Hspec.
  destruct (GetRules st) as [[s|msg] st1]; [by eexists _, _|done].
Qed.


Lemma rulesOfResource_spec h tcs :
  Forall (λ tc, ∃ c, ctrls h !! tc = Some c
                     ∧ ∀ q, rule c = Some q → is_Some (rules h !! q)) tcs →
  ∃ l, rulesOfResource h tcs = Ok l ∧ wfPtrs (rules h) l
       ∧ ∀ h2, ctrls h `prefix_of` ctrls h2 → rulesOfResource h2 tcs = Ok l.
Proof.
  induction 1 as [|tc tcs (c & Hc & Hq) _ (l & Hl & Hwf & Hl2)].
  - exists []. split_and!; [done|by apply Forall_nil|done].
  - exists (rule c :: l). cbn. unfold derefCtrl at 1. rewrite Hc, Hl. cbn.
    split_and!; [done| |].
    + apply Forall_cons. split; [|done]. intros a Ha. by apply Hq.
    + intros h2 Hpre. unfold derefCtrl.
      by rewrite (prefix_lookup_Some _ _ _ _ Hc Hpre), (Hl2 h2 Hpre).
Qed.






(** *** Controllers of a reload *)

Lemma extends_length h h' : extends h h' → (length (ctrls h) ≤ length (ctrls h'))%nat.
Proof. intros [_ Hp]. by apply prefix_length. Qed.

Lemma buildFlowMapLoop_fresh reg rs :
  constructs reg → ∀ m failed h m' failed' h',
  buildFlowMapLoop reg rs m failed h = (Ok (m', failed'), h') →
  ∀ res tcs tc, m' !! res = Some tcs → tc ∈ tcs →
    (∃ tcs0, m !! res = Some tcs0 ∧ tc ∈ tcs0)
    ∨ (length (ctrls h) ≤ tc < length (ctrls h'))%nat.
Proof.
  intros Hcons. induction rs as [|[p|] rs IH]; intros m failed h m' failed' h'.
  - intros [= <- <- <-] res tcs tc Hres Htc. left. eauto.
  - cbn [buildFlowMapLoop]. destruct (derefRule h (Some p)) as [v|]; [|done].
    destruct (IsValidRule (Some v)); [by apply IH|].
    destruct (from_option _ _ _) as [[|]|]; [by apply IH| |done].
    destruct (reg !! key v) as [g|] eqn:Hg; [|by apply IH].
    destruct (g v) as [msg| |mk|tsc] eqn:Hgv; [done|by apply IH| |].
    + cbn [allocCtrl]. intros Hloop res tcs tc Hres Htc.
      pose proof (buildFlowMapLoop_extends _ _ _ _ _ _ _ Hloop) as Hext.
      apply extends_length in Hext. cbn in Hext. rewrite length_app in Hext.
      cbn in Hext.
      destruct (IH _ _ _ _ _ _ Hloop res tcs tc Hres Htc)
        as [(tcs0 & Hres0 & Htc0)|Hfresh].
      * destruct (decide (res = Resource v)) as [->|Hne].
        -- rewrite lookup_insert_eq in Hres0. injection Hres0 as <-.
           apply elem_of_app in Htc0 as [Htc0|Htc0%list_elem_of_singleton].
           ++ left. destruct (m !! Resource v) as [old|]; [eauto|].
              cbn in Htc0. by apply elem_of_nil in Htc0.
           ++ right. subst tc. lia.
        -- rewrite lookup_insert_ne in Hres0 by done. left. eauto.
      * right. cbn in Hfresh. rewrite length_app in Hfresh. cbn in Hfresh. lia.
    + by destruct (Hcons _ _ _ _ Hg Hgv).
  - cbn [buildFlowMapLoop]. by apply IH.
Qed.

Lemma buildFlowMap_fresh reg rs h m failed h' :
  constructs reg → buildFlowMap reg rs h = (Ok (m, failed), h') →
  ∀ res tcs tc, m !! res = Some tcs → tc ∈ tcs →
    (length (ctrls h) ≤ tc < length (ctrls h'))%nat.
Proof.
  intros Hcons. unfold buildFlowMap. case_decide.
  - intros [= <- <- <-] res tcs tc Hres. by rewrite lookup_empty in Hres.
  - intros Hloop res tcs tc Hres Htc.
    destruct (buildFlowMapLoop_fresh _ _ Hcons _ _ _ _ _ _ Hloop _ _ _ Hres Htc)
      as [(tcs0 & Hres0 & _)|Hfresh]; [|done].
    by rewrite lookup_empty in Hres0.
Qed.

(** C9 (amended): a [LoadRules] without error makes the candidate map of
    [buildFlowMap] the effective map, whether it reports a change or
    not; when every registered generator constructs the controller it
    returns, as the built-in ones do, every controller of the new
    effective map is a cell allocated during this call, so none of them
    is a controller that the effective map held before. *)
Theorem reload_swaps_in_candidate (rules : slice (option addr)) (st : State)
    (ret : bool) (failedRules : slice (option addr)) (st' : State) :
  LoadRules rules st = ((ret, None, failedRules), st') →
  buildFlowMap (tcGenFuncMap st) rules (heap st)
  = (Ok (tcMap st', failedRules), heap st')
  ∧ (constructs (tcGenFuncMap st) →
     ∀ res tcs tc, tcMap st' !! res = Some tcs → tc ∈ tcs →
       (length (ctrls (heap st)) ≤ tc < length (ctrls (heap st')))%nat
       ∧ (allocated (heap st) (tcMap st) →
          ∀ res0 tcs0, tcMap st !! res0 = Some tcs0 → tc ∉ tcs0)).
Proof.
  intros (m & Hbody & _ & <-)%LoadRules_Ok.
  apply onRuleUpdateBody_Ok in Hbody as [Hbuild _]. split; [done|].
  intros Hcons res tcs tc Hres Htc.
  pose proof (buildFlowMap_fresh _ _ _ _ _ _ Hcons Hbuild _ _ _ Hres Htc) as Hfresh.
  split; [done|]. intros Halloc res0 tcs0 Hres0 Htc0.
  destruct (Halloc _ _ _ Hres0 Htc0) as [c Hc].
  apply lookup_lt_Some in Hc. lia.
Qed.

(** *** Reloading the same rules *)

Lemma rulesOfList_values h tcs vs :
  ruleValues h tcs = Some vs →
  ∃ ps, rulesOfList h tcs = Ok ps ∧ mapM (valueOf (rules h)) ps = Some vs.
Proof.
  revert vs. induction tcs as [|tc tcs IH]; intros vs Hvs.
  - injection Hvs as <-. by exists [].
  - apply ruleValues_cons_Some in Hvs as (r & vs' & -> & Hr & Hvs').
    apply ruleOf_Some in Hr as (c & q & Hc & Hq & Hr).
    destruct (IH _ Hvs') as (ps & Hps & Hm).
    exists (Some q :: ps). cbn. unfold derefCtrl at 1. rewrite Hc. cbn.
    rewrite Hps. cbn. rewrite Hq. split; [done|]. rewrite Hr. cbn.
    by rewrite Hm.
Qed.

Lemma rulesFromLoop_values h entries (f : string → list Rule) :
  Forall (λ e, ruleValues h e.2 = Some (f e.1)) entries →
  ∃ ps, rulesFromLoop h entries = Ok ps
        ∧ mapM (valueOf (rules h)) ps = Some (entries.*1 ≫= f).
Proof.
  induction 1 as [|[res tcs] entries He _ (ps & Hps & Hm)]; [by exists []|].
  cbn [fst snd] in He. destruct (rulesOfList_values _ _ _ He) as (l & Hl & Hlm).
  exists (l ++ ps). cbn. rewrite Hl. cbn. rewrite Hps. cbn.
  split; [done|]. by apply mapM_option_app.
Qed.

(** [GetRules] on a map that represents [acc]: the rules of [acc],
    resource by resource in the order of the traversal. *)
Lemma GetRules_represents st acc :
  represents (heap st) (tcMap st) acc →
  returned (GetRules st)
  = Some (Some <$> ((range (tcMap st)).*1
                      ≫= λ res, filter (λ v, Resource v = res) acc)).
Proof.
  intros Hrep. unfold GetRules, getRules, rulesFrom. case_decide as Hsize.
  - rewrite (range_empty _ Hsize). by apply returned_copySlice.
  - destruct (rulesFromLoop_values (heap st) (range (tcMap st))
                (λ res, filter (λ v, Resource v = res) acc))
      as (ps & Hps & Hm).
    { apply Forall_forall. intros [res tcs] Hin%range_elem. cbn.
      destruct (Hrep res) as [Hvs _]. by rewrite Hin in Hvs. }
    rewrite Hps. cbn [fmap result_fmap]. by apply returned_copySlice.
Qed.

Lemma range_keys_NoDup m : NoDup (range m).*1.
Proof. rewrite range_perm. apply NoDup_fst_map_to_list. Qed.

Lemma range_keys_elem m res : res ∈ (range m).*1 ↔ is_Some (m !! res).
Proof.
  rewrite list_elem_of_fmap. split.
  - intros ([res' tcs] & -> & Hin%range_elem). by eexists.
  - intros [tcs Htcs]. exists (res, tcs). split; [done|]. by apply range_elem.
Qed.


Lemma represents_carriesRules h m acc : represents h m acc → carriesRules h m.
Proof.
  intros Hrep res tcs Hres. destruct (Hrep res) as [Hvs _].
  rewrite Hres in Hvs. cbn in Hvs. by rewrite Hvs.
Qed.

Lemma carriesRules_extends h h' m : carriesRules h m → extends h h' → carriesRules h' m.
Proof.
  intros Hc Hext res tcs Hres. destruct (Hc _ _ Hres) as [vs Hvs].
  exists vs. by eapply extends_ruleValues.
Qed.


(** The change detection does not panic when the controllers of both
    maps carry rules. *)
Lemma rulesChanged_total h tcMap m :
  carriesRules h tcMap → carriesRules h m → ∃ b, rulesChanged h tcMap m = Ok b.
Proof.
  intros Hold Hnew. unfold rulesChanged. case_decide; [by eexists|].
  destruct (diffLoop_spec h m (range tcMap)) as (b & Hb & _); [|done|by eexists].
  apply Forall_forall. intros [res tcs] Hin%range_elem. by apply (Hold res).
Qed.

(** *** Validation *)

(** C5, the claim as stated fails: a rule whose metric type (or whose
    relation strategy) is not negative but unknown passes
    [IsValidRule]. *)
Lemma IsValidRule_accepts_unknown_enum :
  ¬ knownMetricType (MetricType unknownMetricRule)
  ∧ IsValidRule (Some unknownMetricRule) = None
  ∧ ¬ knownRelationStrategy (RelationStrategy unknownRelationRule)
  ∧ IsValidRule (Some unknownRelationRule) = None.
Proof.
  repeat split; try reflexivity;
    unfold knownMetricType, knownRelationStrategy; cbn; intros [?|?]; discriminate.
Qed.

(** C5 (amended): [IsValidRule] checks, in this order and stopping at
    the first violation, each with an error of its own: a nil rule; an
    empty Resource; Count < 0; a negative MetricType; a negative
    RelationStrategy; a negative TokenCalculateStrategy or
    ControlBehavior; AssociatedResource with an empty RefResource;
    WarmUp with WarmUpPeriodSec <= 0 or WarmUpColdFactor = 1.  A rule
    with WarmUp, WarmUpPeriodSec = 10, WarmUpColdFactor = 2 and the
    other fields valid passes. *)
Theorem IsValidRule_first_violation :
  (∀ rule, IsValidRule rule = firstViolation rule)
  ∧ NoDup validationErrors
  ∧ (∀ r, validationErrors = "nil Rule"%string :: (snd <$> ruleChecks r))
  ∧ (∀ r, Resource r ≠ ""%string → ¬ (Count r < 0)%Qc → 0 ≤ MetricType r →
          0 ≤ RelationStrategy r → 0 ≤ ControlBehavior r →
          ¬ (RelationStrategy r = AssociatedResource ∧ RefResource r = ""%string) →
          TokenCalculateStrategy r = WarmUp → WarmUpPeriodSec r = 10 →
          WarmUpColdFactor r = 2 →
          IsValidRule (Some r) = None).
Proof.
  split; [|split; [|split]].
  - intros [r|]; [|reflexivity].
    unfold IsValidRule, firstViolation, ruleChecks.
    repeat (case_decide;
            [rewrite bool_decide_eq_true_2 by done; reflexivity
            |rewrite bool_decide_eq_false_2 by done]).
    case_decide as Hw.
    + case_decide as Hp.
      { rewrite bool_decide_eq_true_2 by done. reflexivity. }
      rewrite (bool_decide_eq_false_2 (_ ∧ WarmUpPeriodSec r ≤ 0)) by tauto.
      case_decide as Hc.
      { rewrite bool_decide_eq_true_2 by done. reflexivity. }
      rewrite bool_decide_eq_false_2 by tauto. reflexivity.
    + rewrite !bool_decide_eq_false_2 by tauto. reflexivity.
  - unfold validationErrors.
    repeat (apply NoDup_cons; split;
            [rewrite ?elem_of_cons, elem_of_nil; intros H';
             repeat destruct H' as [H'|H']; done|]).
    apply NoDup_nil_2.
  - reflexivity.
  - intros r Hres Hcount Hm Hrs Hcb Hassoc Hw Hp Hc.
    unfold IsValidRule.
    rewrite decide_False by done. rewrite decide_False by done.
    rewrite decide_False by lia. rewrite decide_False by lia.
    rewrite decide_False by (rewrite Hw; unfold WarmUp; lia).
    rewrite decide_False by done. rewrite decide_True by done.
    rewrite decide_False by lia. rewrite decide_False by lia.
    reflexivity.
Qed.

(** *** The generator registry *)

(** C6: [SetTrafficShapingGenerator] fails on a nil generator; it and
    [RemoveTrafficShapingGenerator] fail when the strategy is between
    Direct and WarmUp or the behavior is between Reject and Throttling,
    whatever the other axis is; a failing call leaves the state as it
    was; otherwise Set binds the key to the generator and Remove deletes
    the key, which changes nothing when the key is absent. *)
Theorem generator_registry_protected (ts cb : Z) (g : TrafficControllerGenFunc)
    (st : State) :
  SetTrafficShapingGenerator ts cb None st = (Some "nil generator"%string, st)
  ∧ ((Direct ≤ ts ≤ WarmUp) ∨ (Reject ≤ cb ≤ Throttling) →
     SetTrafficShapingGenerator ts cb (Some g) st = (Some protectedError, st)
     ∧ RemoveTrafficShapingGenerator ts cb st = (Some protectedError, st))
  ∧ (¬ (Direct ≤ ts ≤ WarmUp) → ¬ (Reject ≤ cb ≤ Throttling) →
     (∃ st', SetTrafficShapingGenerator ts cb (Some g) st = (None, st')
             ∧ tcGenFuncMap st' = <[(ts, cb) := g]> (tcGenFuncMap st)
             ∧ tcGenFuncMap st' !! (ts, cb) = Some g
             ∧ heap st' = heap st ∧ tcMap st' = tcMap st)
     ∧ (∃ st', RemoveTrafficShapingGenerator ts cb st = (None, st')
               ∧ tcGenFuncMap st' = delete (ts, cb) (tcGenFuncMap st)
               ∧ tcGenFuncMap st' !! (ts, cb) = None
               ∧ heap st' = heap st ∧ tcMap st' = tcMap st
               ∧ (tcGenFuncMap st !! (ts, cb) = None → st' = st))).
Proof.
  split; [reflexivity|split].
  - intros Hrange. unfold SetTrafficShapingGenerator, RemoveTrafficShapingGenerator.
    destruct (decide (Direct ≤ ts ∧ ts ≤ WarmUp)) as [|Hts]; [done|].
    rewrite !decide_True by tauto. done.
  - intros Hts Hcb.
    unfold SetTrafficShapingGenerator, RemoveTrafficShapingGenerator.
    rewrite !decide_False by done. split.
    + eexists; split; [reflexivity|]. cbn. by rewrite lookup_insert_eq.
    + eexists; split; [reflexivity|]. cbn. rewrite lookup_delete_eq.
      repeat split. intros Habs. rewrite delete_id by done. by destruct st.
Qed.

(** *** Queries *)

(** C10: for a resource that the effective map does not hold,
    [GetRulesOfResource] returns an empty slice that is not nil, and no
    panic; so does [GetRules] when the effective map is empty.  The
    state is as before. *)
Theorem queries_empty_not_nil (st : State) :
  (∀ res, tcMap st !! res = None →
          GetRulesOfResource res st = (Ok (Slice []), st))
  ∧ (tcMap st = ∅ → GetRules st = (Ok (Slice []), st)).
Proof.
  split.
  - intros res Hres. unfold GetRulesOfResource, getRulesOfResource.
    rewrite Hres. cbn. by destruct st.
  - intros Hempty. unfold GetRules, getRules, rulesFrom.
    rewrite Hempty, map_size_empty. cbn. by destruct st.
Qed.

(** *** The built-in generators and the computing checks *)

Lemma initGenFuncMap_lookup k g :
  initGenFuncMap !! k = Some g →
  ∀ r, ∃ mk, g r = GenNew mk ∧ ∀ p, rule (mk p) = Some p.
Proof.
  unfold initGenFuncMap. rewrite !lookup_insert_Some, lookup_empty.
  intros [[_ <-]|[_ [[_ <-]|[_ [[_ <-]|[_ [[_ <-]|[_ ?]]]]]]]] r;
    try done; by eexists.
Qed.

Lemma initGenFuncMap_honoursContract h : honoursContract h initGenFuncMap.
Proof.
  intros r g Hg. destruct (initGenFuncMap_lookup _ _ Hg r) as (mk & Hmk & Hp).
  unfold keepsRule. rewrite Hmk. intros p Hr. exists p. by rewrite Hp.
Qed.

Lemma initGenFuncMap_constructs : constructs initGenFuncMap.
Proof.
  intros k g r tsc Hg. destruct (initGenFuncMap_lookup _ _ Hg r) as (mk & -> & _).
  done.
Qed.

Lemma distinctRulesb_sound h m : distinctRulesb h m = true → distinctRules h m.
Proof.
  unfold distinctRulesb. rewrite forallb_forall. intros Hall res tcs Hres.
  specialize (Hall (res, tcs)). cbn in Hall.
  destruct (ruleValues h tcs) as [vs|].
  - exists vs. split; [done|]. eapply bool_decide_eq_true_1, Hall.
    by apply list_elem_of_In, elem_of_map_to_list.
  - discriminate Hall. by apply list_elem_of_In, elem_of_map_to_list.
Qed.

Lemma distinctRules_carriesRules h m : distinctRules h m → carriesRules h m.
Proof.
  intros Hd res tcs Hres. destruct (Hd _ _ Hres) as (vs & -> & _). done.
Qed.

Lemma noDanglingb_sound h m : noDanglingb h m = true → noDangling h m.
Proof.
  unfold noDanglingb. rewrite forallb_forall. intros Hall res tcs tc Hres Htc.
  specialize (Hall (res, tcs)). cbn in Hall. rewrite forallb_forall in Hall.
  assert (In (res, tcs) (map_to_list m)) as Hin
    by (by apply list_elem_of_In, elem_of_map_to_list).
  assert (In tc tcs) as Hin' by (by apply list_elem_of_In).
  specialize (Hall Hin tc Hin').
  destruct (ctrls h !! tc) as [c|]; [|done]. exists c. split; [done|].
  intros q Hq. rewrite Hq in Hall. by eapply bool_decide_eq_true_1.
Qed.


End Manager.

(** ** Properties over several traversals

    A query after a reload, or two reloads in a row, traverse the map
    each in an order of its own. *)


(** *** The values that the queries return *)

Lemma rulesOfResource_values h tcs vs :
  ruleValues h tcs = Some vs →
  ∃ ps, rulesOfResource h tcs = Ok ps ∧ mapM (valueOf (rules h)) ps = Some vs.
Proof.
  revert vs. induction tcs as [|tc tcs IH]; intros vs Hvs.
  - injection Hvs as <-. by exists [].
  - apply ruleValues_cons_Some in Hvs as (r & vs' & -> & Hr & Hvs').
    apply ruleOf_Some in Hr as (c & q & Hc & Hq & Hr).
    destruct (IH _ Hvs') as (ps & Hps & Hm).
    exists (Some q :: ps). cbn. unfold derefCtrl at 1. rewrite Hc. cbn.
    rewrite Hps. cbn. rewrite Hq. split; [done|]. rewrite Hr. cbn.
    by rewrite Hm.
Qed.





Section Traversals.

Variables range1 range2 range3 range4
  : TrafficControllerMap → list (string * list addr).
Hypothesis range1_perm : ∀ m, range1 m ≡ₚ map_to_list m.
Hypothesis range2_perm : ∀ m, range2 m ≡ₚ map_to_list m.
Hypothesis range3_perm : ∀ m, range3 m ≡ₚ map_to_list m.
Hypothesis range4_perm : ∀ m, range4 m ≡ₚ map_to_list m.




End Traversals.

(** ** Loads, seen from the caller *)

Section Reloads.

Variable range : TrafficControllerMap → list (string * list addr).
Hypothesis range_perm : ∀ m, range m ≡ₚ map_to_list m.

(** *** Loads that accept nothing *)

Lemma buildFlowMapLoop_allRejected reg rs : ∀ failed h,
  allRejected reg (rules h) rs →
  buildFlowMapLoop reg rs ∅ failed h
  = (Ok (∅, appendAll failed (filter (λ p, p ≠ None) rs)), h).
Proof.
  induction rs as [|[p|] rs IH]; intros failed h Hall.
  - done.
  - apply Forall_cons in Hall as [(r & Hr & Hrej) Hall].
    cbn [buildFlowMapLoop derefRule]. rewrite Hr.
    rewrite filter_cons, decide_True by done. cbn [appendAll foldl].
    fold (appendAll (append failed (Some p)) (filter (λ p, p ≠ None) rs)).
    destruct (IsValidRule (Some r)) as [e|] eqn:Hv; [by apply IH|].
    rewrite lookup_empty. cbn [from_option].
    unfold rejected in Hrej. rewrite Hv in Hrej.
    rewrite bool_decide_eq_false_2 in Hrej by (by intros []).
    cbn [orb] in Hrej.
    destruct (reg !! key r) as [g|]; [|by apply IH].
    destruct (g r); try done. by apply IH.
  - apply Forall_cons in Hall as [_ Hall]. cbn [buildFlowMapLoop].
    rewrite filter_cons, decide_False by (by intros []). by apply IH.
Qed.

Lemma rulesChanged_empty h tcMap :
  rulesChanged range h tcMap ∅ = Ok (bool_decide (tcMap ≠ ∅)).
Proof.
  unfold rulesChanged. rewrite map_size_empty. case_decide as Hsize.
  - rewrite bool_decide_eq_true_2; [done|].
    intros ->. by rewrite map_size_empty in Hsize.
  - assert (size tcMap = 0%nat) as Hz by lia.
    rewrite (range_empty range range_perm _ Hz).
    apply map_size_empty_inv in Hz as ->.
    by rewrite bool_decide_eq_false_2 by (by intros []).
Qed.

(** X1: a load that accepts nothing still replaces the effective rules:
    when every non-nil rule of the input is rejected (so also for a nil
    or an empty input) [LoadRules] returns no error, lists every
    non-nil rule of the input in [failedRules], leaves no effective
    rule, and reports a change exactly when there were effective rules
    before. *)
Theorem LoadRules_all_rejected (rs : slice (option addr)) (st : State) :
  allRejected (tcGenFuncMap st) (rules (heap st)) (elems rs) →
  LoadRules range rs st
  = ((bool_decide (tcMap st ≠ ∅), None,
      appendAll NilSlice (filter (λ p, p ≠ None) (elems rs))),
     {| heap := heap st; tcGenFuncMap := tcGenFuncMap st; tcMap := ∅ |}).
Proof.
  intros Hall. unfold LoadRules, onRuleUpdate, onRuleUpdateBody.
  assert (buildFlowMap (tcGenFuncMap st) rs (heap st)
          = (Ok (∅, appendAll NilSlice (filter (λ p, p ≠ None) (elems rs))),
             heap st)) as ->.
  { unfold buildFlowMap. case_decide as Hlen.
    - unfold len in Hlen. apply nil_length_inv in Hlen. by rewrite Hlen.
    - by apply buildFlowMapLoop_allRejected. }
  by rewrite rulesChanged_empty.
Qed.

(** X2: [ClearRules] never fails, whatever the state: it returns nil, the
    effective map is empty afterwards, the heap and the registry are as
    before, and every query answers with an empty result. *)
Theorem ClearRules_clears (st : State) :
  ∃ st', ClearRules range st = (None, st')
         ∧ tcMap st' = ∅ ∧ heap st' = heap st
         ∧ tcGenFuncMap st' = tcGenFuncMap st
         ∧ GetRules range st' = (Ok (Slice []), st')
         ∧ ∀ res, GetRulesOfResource res st' = (Ok (Slice []), st')
                  ∧ getTrafficControllerListFor res st' = NilSlice.
Proof.
  eexists.
  unfold ClearRules, LoadRules, onRuleUpdate, onRuleUpdateBody, buildFlowMap.
  rewrite decide_True by done.
  rewrite rulesChanged_empty. cbn [mbind result_bind mret result_ret].
  split_and!; try reflexivity.
  intros res. split; reflexivity.
Qed.

(** *** What every load returns *)

Lemma buildFlowMapLoop_shape reg rs : ∀ m failed h m' failed' h',
  (∀ res, m !! res ≠ Some []) →
  buildFlowMapLoop reg rs m failed h = (Ok (m', failed'), h') →
  (∀ res, m' !! res ≠ Some [])
  ∧ ∃ l, failed' = appendAll failed l ∧ l `sublist_of` rs ∧ None ∉ l.
Proof.
  induction rs as [|[p|] rs IH]; intros m failed h m' failed' h' Hne.
  - intros [= <- <- <-]. split; [done|]. exists []. split_and!; [done..|].
    apply not_elem_of_nil.
  - cbn [buildFlowMapLoop]. destruct (derefRule h (Some p)) as [v|]; [|done].
    assert (∀ f, (∃ l, failed' = appendAll f l ∧ l `sublist_of` rs ∧ None ∉ l) →
                 ∃ l, failed' = appendAll f l ∧ l `sublist_of` Some p :: rs
                      ∧ None ∉ l) as Hskip.
    { intros f (l & -> & Hsub & Hnil). exists l. split_and!; [done| |done].
      by apply sublist_cons. }
    assert ((∃ l, failed' = appendAll (append failed (Some p)) l
                  ∧ l `sublist_of` rs ∧ None ∉ l) →
            ∃ l, failed' = appendAll failed l ∧ l `sublist_of` Some p :: rs
                 ∧ None ∉ l) as Hkeep.
    { intros (l & -> & Hsub & Hnil). exists (Some p :: l).
      split_and!; [done|by apply sublist_skip|].
      rewrite not_elem_of_cons. done. }
    assert (∀ tsc, ∀ res,
              <[Resource v := default [] (m !! Resource v) ++ [tsc]]> m !! res
              ≠ Some []) as Hins.
    { intros tsc res. destruct (decide (res = Resource v)) as [->|Hres].
      - rewrite lookup_insert_eq. intros [= Happ].
        by apply app_nil in Happ as [_ ?].
      - by rewrite lookup_insert_ne. }
    destruct (IsValidRule (Some v)).
    { intros [? ?]%IH; [|done]. split; [done|]. by apply Hkeep. }
    destruct (from_option (isDuplicate h p) _ _) as [[|]|]; [| |done].
    { intros [? ?]%IH; [|done]. split; [done|]. by apply Hskip. }
    destruct (reg !! key v) as [g|].
    2:{ intros [? ?]%IH; [|done]. split; [done|]. by apply Hkeep. }
    destruct (g v) as [msg| |mk|tsc]; [done| | |].
    + intros [? ?]%IH; [|done]. split; [done|]. by apply Hkeep.
    + cbn [allocCtrl]. intros [? ?]%IH; [|by apply Hins].
      split; [done|]. by apply Hskip.
    + intros [? ?]%IH; [|by apply Hins]. split; [done|]. by apply Hskip.
  - cbn [buildFlowMapLoop]. intros [? (l & -> & Hsub & Hnil)]%IH; [|done].
    split; [done|]. exists l. split_and!; [done| |done]. by apply sublist_cons.
Qed.

Lemma buildFlowMap_shape reg rs h m failed h' :
  buildFlowMap reg rs h = (Ok (m, failed), h') →
  (∀ res, m !! res ≠ Some [])
  ∧ elems failed `sublist_of` elems rs ∧ None ∉ elems failed.
Proof.
  unfold buildFlowMap. case_decide.
  - intros [= <- <- <-]. split_and!.
    + intros res. by rewrite lookup_empty.
    + apply sublist_nil_l.
    + apply not_elem_of_nil.
  - intros (Hne & l & -> & Hsub & Hnil)%buildFlowMapLoop_shape.
    + by rewrite appendAll_elems.
    + intros res. by rewrite lookup_empty.
Qed.

(** X3: whatever the generators do, [failedRules] is a subsequence of the
    input: [LoadRules] reports no rule that it was not given, and in
    input order.  Without error no nil is reported; with an error the
    whole input is returned and [changed] is false. *)
Theorem failedRules_sublist (rs : slice (option addr)) (st : State)
    (ret : bool) (err : error) (failed : slice (option addr)) (st' : State) :
  LoadRules range rs st = ((ret, err, failed), st') →
  elems failed `sublist_of` elems rs
  ∧ (err = None → None ∉ elems failed)
  ∧ (err ≠ None → failed = rs ∧ ret = false).
Proof.
  unfold LoadRules, onRuleUpdate.
  destruct (onRuleUpdateBody range rs st) as [[[[ret0 failed0] m0]|msg] h0] eqn:Hb.
  - intros [= <- <- <- <-].
    apply onRuleUpdateBody_Ok in Hb as [(_ & Hsub & Hnil)%buildFlowMap_shape _].
    done.
  - intros [= <- <- <- <-]. split_and!; [done|done|done].
Qed.

(** X4: whatever the generators do, a load without error binds no resource
    to an empty list: [getTrafficControllerListFor] returns nil for a
    resource without controller and a non-empty list otherwise. *)
Theorem controller_lists_nonempty (rs : slice (option addr)) (st : State)
    (ret : bool) (failed : slice (option addr)) (st' : State) :
  LoadRules range rs st = ((ret, None, failed), st') →
  ∀ name, (tcMap st' !! name = None
           ∧ getTrafficControllerListFor name st' = NilSlice)
          ∨ ∃ tc tcs, getTrafficControllerListFor name st' = Slice (tc :: tcs).
Proof.
  intros (m & Hbody & _ & <-)%LoadRules_Ok name.
  apply onRuleUpdateBody_Ok in Hbody as [(Hne & _)%buildFlowMap_shape _].
  unfold getTrafficControllerListFor. specialize (Hne name).
  destruct (tcMap st' !! name) as [[|tc tcs]|]; [done| |by left].
  right. by eexists _, _.
Qed.

End Reloads.

(** ** Loads and queries *)

Lemma elem_of_foldl_keepFirst l : ∀ acc r,
  r ∈ foldl keepFirst acc l ↔ r ∈ acc ∨ r ∈ l.
Proof.
  induction l as [|x l IH]; intros acc r; cbn.
  - rewrite elem_of_nil. tauto.
  - rewrite IH, elem_of_cons. unfold keepFirst. case_decide as Hx.
    + split; [tauto|]. intros [?|[->|?]]; tauto.
    + rewrite elem_of_app, list_elem_of_singleton. tauto.
Qed.

Lemma elem_of_firstSeen l r : r ∈ firstSeen l ↔ r ∈ l.
Proof.
  unfold firstSeen. rewrite elem_of_foldl_keepFirst, elem_of_nil. tauto.
Qed.

Lemma elem_of_inputValues store rs r :
  r ∈ inputValues store rs ↔ ∃ p, Some p ∈ rs ∧ store !! p = Some r.
Proof.
  unfold inputValues. rewrite list_elem_of_omap. split.
  - intros ([p|] & Hin & Hv); [|done]. by exists p.
  - intros (p & Hin & Hv). by exists (Some p).
Qed.

Lemma elem_of_acceptedValues reg store rs r :
  r ∈ acceptedValues reg store rs
  ↔ accepted reg r ∧ ∃ p, Some p ∈ rs ∧ store !! p = Some r.
Proof.
  unfold acceptedValues. by rewrite list_elem_of_filter, elem_of_inputValues.
Qed.

Lemma accepted_valid reg r :
  accepted reg r → IsValidRule (Some r) = None ∧ is_Some (reg !! key r).
Proof.
  unfold accepted. intros [Hv Hg]%andb_prop_elim.
  apply bool_decide_unpack in Hv. split; [done|].
  by destruct (reg !! key r).
Qed.

(** Grouping a list by resource, over keys that are pairwise different
    and include every resource of the list, loses and repeats
    nothing. *)
Lemma group_by_resource (ks : list string) : ∀ acc : list Rule,
  NoDup ks → (∀ r, r ∈ acc → Resource r ∈ ks) →
  ks ≫= (λ res, filter (λ v, Resource v = res) acc) ≡ₚ acc.
Proof.
  induction ks as [|k ks IH]; intros acc Hnd Hin.
  - destruct acc as [|r acc]; [done|].
    specialize (Hin r (list_elem_of_here _ _)). by apply elem_of_nil in Hin.
  - apply NoDup_cons in Hnd as [Hk Hnd]. cbn.
    etrans; [|apply (filter_app_complement (λ v, Resource v = k) acc)].
    apply Permutation_app_head.
    etrans; [|apply (IH (filter (λ v, ¬ Resource v = k) acc) Hnd)].
    + apply reflexive_eq, list_bind_ext_Forall.
      apply Forall_forall. intros res Hres.
      rewrite list_filter_filter. apply list_filter_iff. intros v.
      split; [|tauto]. intros Hv. split; [done|]. intros Hv'.
      by assert (k = res) as -> by congruence.
    + intros r [Hne Hr]%list_elem_of_filter.
      specialize (Hin r Hr). apply elem_of_cons in Hin as [?|?]; done.
Qed.

(** [GetRulesOfResource] on a map that represents [acc]: the rules of
    [acc] of that resource, in the order of [acc]. *)
Lemma GetRulesOfResource_represents st acc res :
  represents (heap st) (tcMap st) acc →
  returned (GetRulesOfResource res st)
  = Some (Some <$> filter (λ v, Resource v = res) acc).
Proof.
  intros Hrep. destruct (Hrep res) as [Hvs _].
  unfold GetRulesOfResource, getRulesOfResource.
  destruct (tcMap st !! res) as [tcs|]; cbn in Hvs.
  - destruct (rulesOfResource_values _ _ _ Hvs) as (ps & -> & Hm).
    cbn [fmap result_fmap]. by apply returned_copySlice.
  - injection Hvs as <-. by apply returned_copySlice.
Qed.

(** A load without error, under the generator contract: the new
    effective map represents the accepted rules of the input, first
    occurrences in input order. *)
Lemma LoadRules_represents range rs st ret failed st' :
  honoursContract (heap st) (tcGenFuncMap st) →
  LoadRules range rs st = ((ret, None, failed), st') →
  runsClean (tcGenFuncMap st) (rules (heap st)) (elems rs)
  ∧ extends (heap st) (heap st')
  ∧ tcGenFuncMap st' = tcGenFuncMap st
  ∧ elems failed
    = filter (λ p, rejectedPtr (tcGenFuncMap st) (rules (heap st)) p) (elems rs)
  ∧ represents (heap st') (tcMap st')
      (firstSeen (acceptedValues (tcGenFuncMap st) (rules (heap st)) (elems rs)))
  ∧ rulesChanged range (heap st') (tcMap st) (tcMap st') = Ok ret.
Proof.
  intros Hcon (m & Hbody & Hreg & <-)%LoadRules_Ok.
  apply onRuleUpdateBody_Ok in Hbody as [Hbuild Hch].
  pose proof (buildFlowMap_spec (tcGenFuncMap st) rs (heap st) Hcon) as Hspec.
  rewrite Hbuild in Hspec. destruct Hspec as (Hclean & Hext & -> & Hrep).
  split_and!; try done. by rewrite appendAll_elems.
Qed.

(** [GetRules] on a map that represents [acc] returns the rules of
    [acc], in the order of the resources of the traversal. *)
Lemma GetRules_represents_perm range st acc :
  (∀ m, range m ≡ₚ map_to_list m) →
  represents (heap st) (tcMap st) acc →
  ∃ vs, returned (GetRules range st) = Some (Some <$> vs) ∧ vs ≡ₚ acc.
Proof.
  intros Hperm Hrep. eexists.
  split; [by apply (GetRules_represents range Hperm)|].
  apply group_by_resource; [by apply range_keys_NoDup|].
  intros r Hr. apply (range_keys_elem range Hperm).
  rewrite <- not_eq_None_Some, (represents_lookup_None _ _ _ _ Hrep).
  intros Hnil. assert (r ∈ filter (λ v, Resource v = Resource r) acc) as Hin
    by (by apply list_elem_of_filter).
  rewrite Hnil in Hin. by apply elem_of_nil in Hin.
Qed.

Section Reloaded.

Variables range1 range2 range3
  : TrafficControllerMap → list (string * list addr).
Hypothesis range1_perm : ∀ m, range1 m ≡ₚ map_to_list m.
Hypothesis range2_perm : ∀ m, range2 m ≡ₚ map_to_list m.
Hypothesis range3_perm : ∀ m, range3 m ≡ₚ map_to_list m.

(** X5: round trip through [GetRulesOfResource]: after a load without
    error, under the generator contract, the query returns for every
    resource the accepted rules of the input that name the resource,
    each value once, in the order of their first occurrence in the
    input. *)
Theorem LoadRules_then_GetRulesOfResource (rs : slice (option addr)) (st : State)
    (ret : bool) (failed : slice (option addr)) (st' : State) :
  honoursContract (heap st) (tcGenFuncMap st) →
  LoadRules range1 rs st = ((ret, None, failed), st') →
  ∀ res, returned (GetRulesOfResource res st')
         = Some (Some <$> keptFor (tcGenFuncMap st) (heap st) (elems rs) res).
Proof.
  intros Hcon (_ & _ & _ & _ & Hrep & _)%LoadRules_represents res; [|done].
  by apply GetRulesOfResource_represents.
Qed.

(** X6: round trip through [GetRules]: after a load without error, under
    the generator contract, [GetRules] returns exactly the accepted
    rule values of the input, each once, in some order; every one of
    them is valid and has a registered generator. *)
Theorem LoadRules_then_GetRules (rs : slice (option addr)) (st : State)
    (ret : bool) (failed : slice (option addr)) (st' : State) :
  honoursContract (heap st) (tcGenFuncMap st) →
  LoadRules range1 rs st = ((ret, None, failed), st') →
  ∃ vs, returned (GetRules range2 st') = Some (Some <$> vs)
        ∧ NoDup vs
        ∧ (∀ r, r ∈ vs ↔ r ∈ acceptedValues (tcGenFuncMap st) (rules (heap st))
                                 (elems rs))
        ∧ Forall (λ r, IsValidRule (Some r) = None
                       ∧ is_Some (tcGenFuncMap st !! key r)) vs.
Proof.
  intros Hcon (_ & _ & _ & _ & Hrep & _)%LoadRules_represents; [|done].
  destruct (GetRules_represents_perm range2 _ _ range2_perm Hrep)
    as (vs & Hvs & Hperm).
  exists vs. split_and!; [done| | |].
  - rewrite Hperm. apply firstSeen_NoDup.
  - intros r. rewrite Hperm. apply elem_of_firstSeen.
  - rewrite Hperm. apply Forall_forall. intros r Hr.
    rewrite elem_of_firstSeen in Hr.
    apply elem_of_acceptedValues in Hr as [Hacc _]. by eapply accepted_valid.
Qed.

(** *** Failed or effective *)

Lemma clean_rejected_or_accepted reg r :
  (IsValidRule (Some r) = None →
   ∀ g msg, reg !! key r = Some g → g r ≠ GenPanic msg) →
  rejected reg r = negb (accepted reg r).
Proof.
  intros Hclean. unfold rejected, accepted.
  destruct (IsValidRule (Some r)) as [e|] eqn:Hv.
  - rewrite bool_decide_eq_true_2, bool_decide_eq_false_2 by done. done.
  - rewrite bool_decide_eq_false_2 by (intros Hn; by apply Hn).
    rewrite bool_decide_eq_true_2 by done.
    cbn. destruct (reg !! key r) as [g|] eqn:Hg; [|done].
    specialize (Hclean eq_refl g). destruct (g r) as [msg| | |]; try done.
    by destruct (Hclean msg).
Qed.

Lemma runsClean_elem reg store rs p r :
  runsClean reg store rs → Some p ∈ rs → store !! p = Some r →
  IsValidRule (Some r) = None →
  ∀ g msg, reg !! key r = Some g → g r ≠ GenPanic msg.
Proof.
  intros Hclean Hin Hp. unfold runsClean in Hclean.
  rewrite Forall_forall in Hclean.
  destruct (Hclean _ Hin) as (r' & Hr' & Hg).
  by assert (r' = r) as -> by congruence.
Qed.

(** X7: no rule is lost without notice other than a duplicate: after a load
    without error, under the generator contract, a rule of the input is
    listed in [failedRules] exactly when [GetRulesOfResource] of its
    resource does not return its value. *)
Theorem failed_iff_not_effective (rs : slice (option addr)) (st : State)
    (ret : bool) (failed : slice (option addr)) (st' : State)
    (p : addr) (r : Rule) :
  honoursContract (heap st) (tcGenFuncMap st) →
  LoadRules range1 rs st = ((ret, None, failed), st') →
  Some p ∈ elems rs → rules (heap st) !! p = Some r →
  ∃ vs, returned (GetRulesOfResource (Resource r) st') = Some (Some <$> vs)
        ∧ (Some p ∈ elems failed ↔ r ∉ vs).
Proof.
  intros Hcon (Hclean & _ & _ & Hfailed & Hrep & _)%LoadRules_represents Hin Hp;
    [|done].
  eexists. split; [by apply GetRulesOfResource_represents|].
  rewrite Hfailed, list_elem_of_filter, list_elem_of_filter, elem_of_firstSeen,
    elem_of_acceptedValues.
  unfold rejectedPtr. cbn [valueOf mbind option_bind]. rewrite Hp.
  rewrite (clean_rejected_or_accepted _ r)
    by (by eapply runsClean_elem).
  destruct (accepted (tcGenFuncMap st) r); cbn.
  - split; [by intros [[] _]|]. intros Hn. destruct Hn. eauto.
  - split; [|done]. by intros _ (_ & [] & _).
Qed.

(** *** When a load reports a change *)

Lemma same_elems_nil {A} (l k : list A) :
  (∀ x, x ∈ l ↔ x ∈ k) → l = [] ↔ k = [].
Proof.
  intros Heq. split; intros ->; apply elem_of_nil_inv; intros x Hx;
    apply Heq in Hx; by apply elem_of_nil in Hx.
Qed.

Lemma represents_rule_sets h m1 m2 acc1 acc2 :
  represents h m1 acc1 → represents h m2 acc2 →
  sameRuleSets h m1 m2 ↔ ∀ r, r ∈ acc1 ↔ r ∈ acc2.
Proof.
  intros H1 H2.
  assert (∀ ma mb acca accb,
            represents h ma acca → represents h mb accb →
            dom ma = dom mb →
            (∀ res tcsa tcsb, ma !! res = Some tcsa → mb !! res = Some tcsb →
               ∃ vsa vsb, ruleValues h tcsa = Some vsa
                          ∧ ruleValues h tcsb = Some vsb
                          ∧ ∀ r, r ∈ vsa ↔ r ∈ vsb) →
            ∀ r, r ∈ acca → r ∈ accb) as Hincl.
  { intros ma mb acca accb Ha Hb Hdom Hsame r Hr.
    assert (r ∈ filter (λ v, Resource v = Resource r) acca) as Hin
      by (by apply list_elem_of_filter).
    destruct (ma !! Resource r) as [tcsa|] eqn:Hma.
    2:{ apply (represents_lookup_None _ _ _ _ Ha) in Hma. rewrite Hma in Hin.
        by apply elem_of_nil in Hin. }
    assert (is_Some (mb !! Resource r)) as [tcsb Hmb].
    { apply elem_of_dom. rewrite <- Hdom. apply elem_of_dom. by eexists. }
    destruct (Hsame _ _ _ Hma Hmb) as (vsa & vsb & Hvsa & Hvsb & Heq).
    destruct (Ha (Resource r)) as [Hra _]. destruct (Hb (Resource r)) as [Hrb _].
    rewrite Hma in Hra. rewrite Hmb in Hrb. simpl in Hra, Hrb.
    assert (vsa = filter (λ v, Resource v = Resource r) acca) as -> by congruence.
    assert (vsb = filter (λ v, Resource v = Resource r) accb) as -> by congruence.
    apply Heq in Hin. by apply list_elem_of_filter in Hin as [_ ?]. }
  split.
  - intros [Hdom Hsame] r. split.
    + by apply (Hincl m1 m2 acc1 acc2).
    + apply (Hincl m2 m1 acc2 acc1); [done..|].
      intros res tcsa tcsb Ha Hb.
      destruct (Hsame _ _ _ Hb Ha) as (vsb & vsa & ? & ? & Heq).
      exists vsa, vsb. split_and!; [done..|]. intros r'. by rewrite Heq.
  - intros Heq.
    assert (∀ res r, r ∈ filter (λ v, Resource v = res) acc1
                     ↔ r ∈ filter (λ v, Resource v = res) acc2) as Hf.
    { intros res r. rewrite !list_elem_of_filter, Heq. done. }
    split.
    + apply set_eq. intros res. rewrite !elem_of_dom, <- !not_eq_None_Some.
      rewrite (represents_lookup_None _ _ _ _ H1),
              (represents_lookup_None _ _ _ _ H2).
      by rewrite (same_elems_nil _ _ (Hf res)).
    + intros res tcs1 tcs2 Hm1 Hm2.
      destruct (H1 res) as [Hr1 _]. destruct (H2 res) as [Hr2 _].
      rewrite Hm1 in Hr1. rewrite Hm2 in Hr2. simpl in Hr1, Hr2.
      eexists _, _. split_and!; [done..|]. apply Hf.
Qed.

(** Two loads in a row without error, under the generator contract:
    what the two effective maps represent, and the flag of the second
    load. *)
Lemma reload_flag rs1 rs2 st ret1 failed1 st1 ret2 failed2 st2 :
  honoursContract (heap st) (tcGenFuncMap st) →
  LoadRules range1 rs1 st = ((ret1, None, failed1), st1) →
  LoadRules range2 rs2 st1 = ((ret2, None, failed2), st2) →
  represents (heap st1) (tcMap st1)
    (firstSeen (acceptedValues (tcGenFuncMap st) (rules (heap st)) (elems rs1)))
  ∧ represents (heap st2) (tcMap st2)
      (firstSeen (acceptedValues (tcGenFuncMap st) (rules (heap st)) (elems rs2)))
  ∧ (ret2 = false
     ↔ ∀ r, r ∈ acceptedValues (tcGenFuncMap st) (rules (heap st)) (elems rs1)
            ↔ r ∈ acceptedValues (tcGenFuncMap st) (rules (heap st)) (elems rs2)).
Proof.
  intros Hcon (_ & Hext1 & Hreg1 & _ & Hrep1 & _)%LoadRules_represents
    Hload2; [|done].
  pose proof Hext1 as [Hrules1 _].
  apply LoadRules_represents in Hload2
    as (_ & Hext2 & _ & _ & Hrep2 & Hch2);
    [|rewrite Hreg1; by eapply extends_honoursContract].
  rewrite Hreg1, Hrules1 in Hrep2.
  pose proof (represents_extends _ _ _ _ Hrep1 Hext2) as Hrep1'.
  destruct (rulesChanged_spec range2 range2_perm (heap st2) (tcMap st1)
              (tcMap st2)) as (b & Hb & Hiff).
  { eapply represents_distinct; [done|]. apply firstSeen_NoDup. }
  { eapply represents_distinct; [done|]. apply firstSeen_NoDup. }
  assert (b = ret2) as -> by congruence.
  split_and!; [done..|].
  rewrite Hiff, (represents_rule_sets _ _ _ _ _ Hrep1' Hrep2).
  split; intros Heq r; specialize (Heq r);
    by rewrite !elem_of_firstSeen in *.
Qed.


(** X9: the flag of a first load: on an empty effective map a load without
    error reports a change exactly when it makes some rule effective,
    which under the generator contract is when the input holds an
    accepted rule; rules that are all rejected give [changed = false]. *)
Theorem first_load_changed (rs : slice (option addr)) (st : State)
    (ret : bool) (failed : slice (option addr)) (st' : State) :
  tcMap st = ∅ →
  LoadRules range1 rs st = ((ret, None, failed), st') →
  (ret = true ↔ tcMap st' ≠ ∅)
  ∧ (honoursContract (heap st) (tcGenFuncMap st) →
     ret = true
     ↔ ∃ r, r ∈ acceptedValues (tcGenFuncMap st) (rules (heap st)) (elems rs)).
Proof.
  intros Hempty Hload.
  assert (ret = true ↔ tcMap st' ≠ ∅) as Hflag.
  { apply LoadRules_Ok in Hload as (m & Hbody & _ & <-).
    apply onRuleUpdateBody_Ok in Hbody as [_ Hch].
    unfold rulesChanged in Hch. rewrite Hempty, map_size_empty in Hch.
    case_decide as Hsize.
    - injection Hch as <-. split; [|done]. intros _ Hm.
      by rewrite Hm, map_size_empty in Hsize.
    - rewrite (range_empty range1 range1_perm ∅) in Hch by apply map_size_empty.
      injection Hch as <-. split; [done|]. intros Hm. destruct Hm.
      apply map_size_empty_inv. lia. }
  split; [done|]. intros Hcon.
  apply LoadRules_represents in Hload as (_ & _ & _ & _ & Hrep & _); [|done].
  rewrite Hflag. split.
  - intros Hne. apply map_choose in Hne as (res & tcs & Hres).
    destruct (Hrep res) as [Hvs Hnil]. rewrite Hres in Hvs. simpl in Hvs.
    destruct tcs as [|tc tcs]; [done|].
    apply ruleValues_cons_Some in Hvs as (r & vs & Hf & _).
    exists r. apply elem_of_firstSeen.
    assert (r ∈ r :: vs) as Hin by apply list_elem_of_here.
    rewrite <- Hf in Hin. by apply list_elem_of_filter in Hin as [_ ?].
  - intros [r Hr%elem_of_firstSeen] Hm.
    destruct (Hrep (Resource r)) as [Hvs _].
    rewrite Hm, lookup_empty in Hvs. injection Hvs as Hvs.
    assert (r ∈ filter (λ v, Resource v = Resource r)
                  (firstSeen (acceptedValues (tcGenFuncMap st) (rules (heap st))
                                (elems rs)))) as Hin
      by (by apply list_elem_of_filter).
    rewrite <- Hvs in Hin. by apply elem_of_nil in Hin.
Qed.

(** *** When a load fails *)


(** Under the generator contract, and when the controllers of the
    effective map carry rules, a load fails exactly when [buildFlowMap]
    meets a dangling pointer or a generator that panics. *)
Lemma LoadRules_error_iff range rs st ret err failed st' :
  (∀ m, range m ≡ₚ map_to_list m) →
  honoursContract (heap st) (tcGenFuncMap st) →
  carriesRules (heap st) (tcMap st) →
  LoadRules range rs st = ((ret, err, failed), st') →
  err = None ↔ runsClean (tcGenFuncMap st) (rules (heap st)) (elems rs).
Proof.
  intros Hperm Hcon Hcarry. unfold LoadRules, onRuleUpdate, onRuleUpdateBody.
  pose proof (buildFlowMap_spec (tcGenFuncMap st) rs (heap st) Hcon) as Hspec.
  destruct (buildFlowMap (tcGenFuncMap st) rs (heap st))
    as [[[m f]|msg0] h1] eqn:Hb.
  - destruct Hspec as (Hclean & Hext & _ & Hrep).
    destruct (rulesChanged_total range Hperm h1 (tcMap st) m) as [b ->];
      [by eapply carriesRules_extends|by eapply represents_carriesRules|].
    cbn [mbind result_bind mret result_ret]. by intros [= <- <- <- <-].
  - destruct Hspec as [Hclean _]. by intros [= <- <- <- <-].
Qed.


(** *** Loads after a change of the registry *)

(** X11: once a generator is removed, the next load drops the rules that need
    it: under the contract for the generators that remain, a load
    without error lists every rule of that strategy and behavior in
    [failedRules], and no rule that the queries return afterwards has
    that strategy and behavior. *)
Theorem removed_generator_rules_fail (ts cb : Z) (st st1 : State)
    (rs : slice (option addr)) (ret : bool) (failed : slice (option addr))
    (st2 : State) :
  RemoveTrafficShapingGenerator ts cb st = (None, st1) →
  honoursContract (heap st1) (tcGenFuncMap st1) →
  LoadRules range1 rs st1 = ((ret, None, failed), st2) →
  (∀ p r, Some p ∈ elems rs → rules (heap st) !! p = Some r →
          key r = (ts, cb) → Some p ∈ elems failed)
  ∧ (∀ res vs, returned (GetRulesOfResource res st2) = Some vs →
               ∀ v, Some v ∈ vs → key v ≠ (ts, cb)).
Proof.
  unfold RemoveTrafficShapingGenerator.
  case_decide; [done|]. case_decide; [done|]. intros [= <-].
  cbn [heap tcGenFuncMap tcMap].
  intros Hcon (_ & _ & _ & Hfailed & Hrep & _)%LoadRules_represents; [|done].
  cbn [heap tcGenFuncMap tcMap] in *. split.
  - intros p r Hin Hp Hkey. rewrite Hfailed. apply list_elem_of_filter.
    split; [|done]. unfold rejectedPtr. cbn [valueOf mbind option_bind].
    rewrite Hp. unfold rejected. rewrite Hkey, lookup_delete_eq.
    by rewrite orb_true_r.
  - intros res vs Hvs v Hv Hkey.
    rewrite (GetRulesOfResource_represents _ _ res Hrep) in Hvs.
    injection Hvs as <-.
    apply list_elem_of_fmap in Hv as (v' & [= <-] & Hv').
    apply list_elem_of_filter in Hv' as [_ Hv'].
    rewrite elem_of_firstSeen in Hv'.
    apply elem_of_acceptedValues in Hv' as [(_ & Hg)%accepted_valid _].
    rewrite Hkey, lookup_delete_eq in Hg. by destruct Hg.
Qed.

End Reloaded.

(** ** The registry over several calls *)

(** X12: round trips of the registry, for a strategy and a behavior that are
    both custom: removing a generator that was set for an unbound key
    gives back the state before; of two generators set in a row the
    second wins; setting after removing is setting; removing twice is
    removing once. *)
Theorem registry_round_trips (ts cb : Z) (g g' : TrafficControllerGenFunc)
    (st : State) :
  ¬ (Direct ≤ ts ≤ WarmUp) → ¬ (Reject ≤ cb ≤ Throttling) →
  (tcGenFuncMap st !! (ts, cb) = None →
   RemoveTrafficShapingGenerator ts cb
     (SetTrafficShapingGenerator ts cb (Some g) st).2 = (None, st))
  ∧ SetTrafficShapingGenerator ts cb (Some g')
      (SetTrafficShapingGenerator ts cb (Some g) st).2
    = SetTrafficShapingGenerator ts cb (Some g') st
  ∧ SetTrafficShapingGenerator ts cb (Some g)
      (RemoveTrafficShapingGenerator ts cb st).2
    = SetTrafficShapingGenerator ts cb (Some g) st
  ∧ RemoveTrafficShapingGenerator ts cb
      (RemoveTrafficShapingGenerator ts cb st).2
    = RemoveTrafficShapingGenerator ts cb st.
Proof.
  intros Hts Hcb.
  unfold SetTrafficShapingGenerator, RemoveTrafficShapingGenerator.
  rewrite !decide_False by done. cbn [snd heap tcGenFuncMap tcMap].
  split_and!.
  - intros Hnone. rewrite delete_insert_id by done. by destruct st.
  - by rewrite insert_insert_eq.
  - by rewrite insert_delete_eq.
  - by rewrite delete_delete_eq.
Qed.

Lemma runCall_protected c st ts cb :
  (Direct ≤ ts ≤ WarmUp) ∨ (Reject ≤ cb ≤ Throttling) →
  tcGenFuncMap (runCall st c) !! (ts, cb) = tcGenFuncMap st !! (ts, cb)
  ∧ heap (runCall st c) = heap st ∧ tcMap (runCall st c) = tcMap st.
Proof.
  intros Hprot.
  destruct c as [ts' cb' [g|]|ts' cb']; cbn [runCall];
    unfold SetTrafficShapingGenerator, RemoveTrafficShapingGenerator;
    repeat case_decide; cbn [snd heap tcGenFuncMap tcMap]; try done.
  - split; [|done]. apply lookup_insert_ne. intros [= -> ->]. tauto.
  - split; [|done]. apply lookup_delete_ne. intros [= -> ->]. tauto.
Qed.

(** X13: the built-in strategies and behaviors are out of reach of the
    registry calls: whatever calls are made, a key whose strategy or
    whose behavior is built-in stays bound, or unbound, as it was, and
    the heap and the effective map are untouched; so the four
    generators of [init] stay registered. *)
Theorem builtin_generators_permanent (cs : list RegistryCall) (st : State) :
  (∀ ts cb, (Direct ≤ ts ≤ WarmUp) ∨ (Reject ≤ cb ≤ Throttling) →
            tcGenFuncMap (runCalls cs st) !! (ts, cb)
            = tcGenFuncMap st !! (ts, cb))
  ∧ heap (runCalls cs st) = heap st
  ∧ tcMap (runCalls cs st) = tcMap st
  ∧ (tcGenFuncMap st = initGenFuncMap →
     ∀ k g, initGenFuncMap !! k = Some g →
            tcGenFuncMap (runCalls cs st) !! k = Some g).
Proof.
  assert ((∀ ts cb, (Direct ≤ ts ≤ WarmUp) ∨ (Reject ≤ cb ≤ Throttling) →
                    tcGenFuncMap (runCalls cs st) !! (ts, cb)
                    = tcGenFuncMap st !! (ts, cb))
          ∧ heap (runCalls cs st) = heap st
          ∧ tcMap (runCalls cs st) = tcMap st) as (Hreg & Hheap & Hmap).
  { revert st. induction cs as [|c cs IH]; intros st; [done|].
    unfold runCalls in *. cbn [foldl].
    destruct (IH (runCall st c)) as (Hreg & -> & ->).
    split_and!.
    - intros ts cb Hprot. rewrite (Hreg ts cb Hprot).
      by apply runCall_protected.
    - by apply (runCall_protected c st Direct Reject); left.
    - by apply (runCall_protected c st Direct Reject); left. }
  split_and!; [done..|]. intros Hinit [ts cb] g Hg.
  rewrite Hreg, Hinit; [done|].
  unfold initGenFuncMap in Hg.
  rewrite !lookup_insert_Some, lookup_empty in Hg.
  unfold Direct, WarmUp, Reject, Throttling in *.
  destruct Hg
    as [[[= <- <-] _]|[_ [[[= <- <-] _]|[_ [[[= <- <-] _]
        |[_ [[[= <- <-] _]|[_ ?]]]]]]]];
    try done; lia.
Qed.

(** ** Loads with the generators of [init] *)

Lemma IsValidRule_strategy_nonneg r :
  IsValidRule (Some r) = None →
  0 ≤ TokenCalculateStrategy r ∧ 0 ≤ ControlBehavior r.
Proof.
  unfold IsValidRule. repeat case_decide; try done; intros _; lia.
Qed.

Lemma initGenFuncMap_None ts cb :
  initGenFuncMap !! (ts, cb) = None
  ↔ ¬ ((Direct ≤ ts ≤ WarmUp) ∧ (Reject ≤ cb ≤ Throttling)).
Proof.
  unfold initGenFuncMap. rewrite !lookup_insert_None, lookup_empty.
  unfold Direct, WarmUp, Reject, Throttling. split.
  - intros ((((_ & H1) & H2) & H3) & H4) [Hts Hcb].
    assert (ts = 0 ∨ ts = 1) as [-> | ->] by lia;
      assert (cb = 0 ∨ cb = 1) as [-> | ->] by lia; done.
  - intros Hn. split_and!; try done; intros [= <- <-]; lia.
Qed.

Lemma builtin_rejected r : rejected initGenFuncMap r = builtinRejects r.
Proof.
  unfold rejected, builtinRejects.
  destruct (IsValidRule (Some r)) as [e|] eqn:Hv.
  { by rewrite !bool_decide_eq_true_2 by done. }
  rewrite !(bool_decide_eq_false_2 (@None string ≠ None))
    by (intros Hn; by apply Hn).
  cbn [orb]. apply IsValidRule_strategy_nonneg in Hv as [Hts Hcb].
  unfold key.
  destruct (initGenFuncMap !! (TokenCalculateStrategy r, ControlBehavior r))
    as [g|] eqn:Hg.
  - destruct (initGenFuncMap_lookup _ _ Hg r) as (mk & -> & _).
    symmetry. apply bool_decide_eq_false_2. intros Hcustom.
    assert (initGenFuncMap !! (TokenCalculateStrategy r, ControlBehavior r)
            = None) as Hnone;
      [|by pose proof (eq_trans (eq_sym Hg) Hnone)].
    apply initGenFuncMap_None. unfold Direct, WarmUp, Reject, Throttling in *.
    lia.
  - symmetry. apply bool_decide_eq_true_2.
    apply initGenFuncMap_None in Hg.
    unfold Direct, WarmUp, Reject, Throttling in *. lia.
Qed.

Lemma initGenFuncMap_runsClean store rs :
  wfPtrs store rs → runsClean initGenFuncMap store rs.
Proof.
  intros Hwf. eapply Forall_impl; [exact Hwf|]. intros [a|] Hp; [|done].
  destruct (Hp a eq_refl) as [r Hr]. exists r. split; [done|].
  intros _ g msg Hg. destruct (initGenFuncMap_lookup _ _ Hg r) as (mk & -> & _).
  done.
Qed.

Section BuiltIn.

Variable range : TrafficControllerMap → list (string * list addr).
Hypothesis range_perm : ∀ m, range m ≡ₚ map_to_list m.

(** X14: loads under the generators of [init] alone: a load whose input
    pointers are nil or point to rules, in a state whose controllers
    carry rules, returns no error; and a load without error lists in
    [failedRules], in input order, exactly the rules that are invalid
    or whose strategy or behavior is none of the built-in ones. *)
Theorem builtin_generators_failures (rs : slice (option addr)) (st : State)
    (ret : bool) (err : error) (failed : slice (option addr)) (st' : State) :
  tcGenFuncMap st = initGenFuncMap →
  LoadRules range rs st = ((ret, err, failed), st') →
  (wfPtrs (rules (heap st)) (elems rs) → carriesRules (heap st) (tcMap st) →
   err = None)
  ∧ (err = None →
     elems failed
     = filter (λ p, from_option builtinRejects false
                      (valueOf (rules (heap st)) p)) (elems rs)).
Proof.
  intros Hinit Hload.
  assert (honoursContract (heap st) (tcGenFuncMap st)) as Hcon
    by (rewrite Hinit; apply initGenFuncMap_honoursContract).
  split.
  - intros Hwf Hcarry.
    apply (LoadRules_error_iff range _ _ _ _ _ _ range_perm Hcon Hcarry Hload).
    rewrite Hinit. by apply initGenFuncMap_runsClean.
  - intros ->.
    apply LoadRules_represents in Hload as (_ & _ & _ & -> & _); [|done].
    rewrite Hinit. apply list_filter_iff. intros p. unfold rejectedPtr.
    destruct (valueOf (rules (heap st)) p) as [r|]; cbn [from_option]; [|done].
    by rewrite builtin_rejected.
Qed.

Lemma sharesRules_extends all h h' m :
  sharesRules all h m → extends h h' → sharesRules all h' m.
Proof.
  intros Hs [Hr Hc] res tcs Hres. eapply Forall_impl; [by eapply Hs|].
  intros tc (c & q & Hcq & Hq & Hin & Hsome). exists c, q.
  split_and!; [by eapply prefix_lookup_Some|done|done|by rewrite Hr].
Qed.

Lemma buildFlowMapLoop_sharesRules reg all rs :
  (∀ k g r, reg !! k = Some g →
            ∃ mk, g r = GenNew mk ∧ ∀ p, rule (mk p) = Some p) →
  ∀ m failed h m' failed' h',
  (∀ p, p ∈ rs → p ∈ all) → sharesRules all h m →
  buildFlowMapLoop reg rs m failed h = (Ok (m', failed'), h') →
  sharesRules all h' m'.
Proof.
  intros Hgen. induction rs as [|[p|] rs IH];
    intros m failed h m' failed' h' Hall Hs.
  - by intros [= <- <- <-].
  - assert (∀ q, q ∈ rs → q ∈ all) as Hall'
      by (intros q Hq; apply Hall; by apply list_elem_of_further).
    cbn [buildFlowMapLoop]. unfold derefRule.
    destruct (rules h !! p) as [v|] eqn:Hp; [|done].
    destruct (IsValidRule (Some v)); [by apply IH|].
    destruct (from_option (isDuplicate h p) _ _) as [[|]|];
      [by apply IH| |done].
    destruct (reg !! key v) as [g|] eqn:Hg; [|by apply IH].
    destruct (Hgen _ _ v Hg) as (mk & -> & Hmk).
    cbn [allocCtrl]. apply IH; [done|].
    set (h1 := {| rules := rules h; ctrls := ctrls h ++ [mk p] |}).
    assert (extends h h1) as Hext by apply (extends_allocCtrl (mk p) h).
    pose proof (sharesRules_extends _ _ _ _ Hs Hext) as Hs1.
    intros res tcs. destruct (decide (res = Resource v)) as [->|Hres].
    + rewrite lookup_insert_eq. intros [= <-]. apply Forall_app. split.
      * destruct (m !! Resource v) as [old|] eqn:Hold; [|by apply Forall_nil].
        by apply (Hs1 (Resource v)).
      * apply Forall_singleton. exists (mk p), p. split_and!.
        -- cbn. by apply list_lookup_middle.
        -- apply Hmk.
        -- apply Hall, list_elem_of_here.
        -- cbn. by rewrite Hp.
    + rewrite lookup_insert_ne by done. apply Hs1.
  - cbn [buildFlowMapLoop]. apply IH; [|done].
    intros q Hq. apply Hall. by apply list_elem_of_further.
Qed.

Lemma rulesOfResource_shared (all : list (option addr)) h tcs :
  Forall (λ tc, ∃ c q, ctrls h !! tc = Some c ∧ rule c = Some q
                       ∧ Some q ∈ all ∧ is_Some (rules h !! q)) tcs →
  ∃ ptrs, (∀ h2, ctrls h2 = ctrls h →
                 rulesOfResource h2 tcs = Ok (Some <$> ptrs))
          ∧ Forall (λ a, Some a ∈ all ∧ is_Some (rules h !! a)) ptrs.
Proof.
  induction 1 as [|tc tcs (c & q & Hc & Hq & Hin & Hsome) _ (ptrs & Hl & Hp)].
  - exists []. split; [done|]. by apply Forall_nil.
  - exists (q :: ptrs). split.
    + intros h2 Hh2. cbn. unfold derefCtrl at 1. rewrite Hh2, Hc. cbn.
      rewrite (Hl h2 Hh2). cbn. by rewrite Hq.
    + apply Forall_cons. done.
Qed.

Lemma storeAll_shape stores : ∀ h,
  ctrls (storeAll stores h) = ctrls h
  ∧ length (rules (storeAll stores h)) = length (rules h).
Proof.
  induction stores as [|[a v] stores IH]; intros h; [done|].
  unfold storeAll in *. cbn [foldl fst snd].
  destruct (IH (storeRule a v h)) as [-> ->]. cbn.
  by rewrite length_insert.
Qed.

Lemma mapM_valueOf_ptrs store ptrs :
  Forall (λ a, is_Some (store !! a)) ptrs →
  ∃ vs, mapM (valueOf store) (Some <$> ptrs) = Some vs
        ∧ (λ a, store !! a) <$> ptrs = Some <$> vs.
Proof.
  induction 1 as [|a ptrs [v Hv] _ (vs & Hm & Hvs)]; [by exists []|].
  exists (v :: vs). cbn. rewrite Hv. cbn. rewrite Hm. cbn.
  by rewrite Hvs.
Qed.

(** X15: the controllers of the built-in generators hold the caller's own
    rule pointers.  After a load without error under the generators of
    [init], the internal query [getRulesOfResource] returns pointers of
    the input list; so what [GetRulesOfResource] returns follows every
    later write to those cells. *)
Theorem builtin_controllers_share_rules (rs : slice (option addr)) (st : State)
    (ret : bool) (failed : slice (option addr)) (st' : State) (res : string) :
  tcGenFuncMap st = initGenFuncMap →
  LoadRules range rs st = ((ret, None, failed), st') →
  ∃ s ptrs,
    getRulesOfResource res st' = Ok s
    ∧ elems s = Some <$> ptrs
    ∧ Forall (λ a, Some a ∈ elems rs) ptrs
    ∧ ∀ stores,
        returned (GetRulesOfResource res
                    (withHeap st' (storeAll stores (heap st'))))
        = Some ((λ a, rules (storeAll stores (heap st')) !! a) <$> ptrs).
Proof.
  intros Hinit (m & Hbody & _ & <-)%LoadRules_Ok.
  apply onRuleUpdateBody_Ok in Hbody as [Hbuild _].
  assert (sharesRules (elems rs) (heap st') (tcMap st')) as Hs.
  { revert Hbuild. unfold buildFlowMap. case_decide.
    - intros [= <- <- <-] r tcs. by rewrite lookup_empty.
    - apply (buildFlowMapLoop_sharesRules _ (elems rs)); [|done|].
      + intros k g r Hg. rewrite Hinit in Hg.
        by apply (initGenFuncMap_lookup k g).
      + intros r tcs. by rewrite lookup_empty. }
  unfold GetRulesOfResource, getRulesOfResource. cbn [withHeap tcMap heap].
  destruct (tcMap st' !! res) as [tcs|] eqn:Hres.
  - destruct (rulesOfResource_shared _ _ _ (Hs _ _ Hres)) as (ptrs & Hl & Hp).
    exists (Slice (Some <$> ptrs)), ptrs. rewrite (Hl (heap st') eq_refl).
    split_and!; [done|done| |].
    + eapply Forall_impl; [exact Hp|]. by intros a [? _].
    + intros stores. set (h2 := storeAll stores (heap st')).
      destruct (storeAll_shape stores (heap st')) as [Hc Hlen].
      rewrite (Hl h2 Hc). cbn [fmap result_fmap].
      destruct (mapM_valueOf_ptrs (rules h2) ptrs) as (vs & Hm & ->).
      { eapply Forall_impl; [exact Hp|]. intros a [_ Ha%lookup_lt_is_Some].
        apply lookup_lt_is_Some. unfold h2. by rewrite Hlen. }
      by apply (returned_copySlice (withHeap st' h2) (Slice (Some <$> ptrs))).
  - exists NilSlice, []. split_and!; [done|done|by apply Forall_nil|].
    intros stores.
    by apply (returned_copySlice (withHeap st' _) NilSlice []).
Qed.

End BuiltIn.

(** ** Queries on any effective map *)

Section EffectiveMap.

Variable range : TrafficControllerMap → list (string * list addr).
Hypothesis range_perm : ∀ m, range m ≡ₚ map_to_list m.

Lemma rulesOfResource_rules h tcs :
  Forall (λ tc, is_Some (ctrls h !! tc)) tcs →
  ∃ l, rulesOfResource h tcs = Ok l
       ∧ Forall2 (λ tc p, ∃ c, ctrls h !! tc = Some c ∧ rule c = p) tcs l.
Proof.
  induction 1 as [|tc tcs [c Hc] _ (l & Hl & Hf)]; [by exists []|].
  exists (rule c :: l). cbn. unfold derefCtrl at 1. rewrite Hc. cbn.
  rewrite Hl. split; [done|]. apply Forall2_cons. split; [by exists c|done].
Qed.

Lemma copyRules_nil ps : ∀ h,
  wfPtrs (rules h) ps → None ∈ ps → ∃ h', copyRules ps h = (Panic nilDeref, h').
Proof.
  induction ps as [|p ps IH]; intros h Hwf Hin; [by apply elem_of_nil in Hin|].
  apply Forall_cons in Hwf as [Hp Hwf]. cbn [copyRules]. unfold derefRule.
  destruct p as [a|]; [|eauto]. destruct (Hp a eq_refl) as [v Hv].
  rewrite Hv. cbn [allocRule].
  apply elem_of_cons in Hin as [?|Hin]; [done|].
  destruct (IH {| rules := rules h ++ [v]; ctrls := ctrls h |}) as (h' & ->);
    [|done|eauto].
  eapply wfPtrs_keeps; [exact Hwf|]. intros q w Hq. by apply lookup_app_l_Some.
Qed.

(** X16: [GetRulesOfResource] trusts every controller to carry a rule,
    [GetRules] does not: in a state without dangling pointers
    [GetRulesOfResource] panics on a nil dereference exactly when a
    controller of the resource has a nil rule, as the controller
    [&TrafficShapingController{}] has, while [GetRules] skips such
    controllers and returns. *)
Theorem GetRulesOfResource_panics_on_nil_rule (st : State) (res : string)
    (tcs : list addr) :
  noDangling (heap st) (tcMap st) → tcMap st !! res = Some tcs →
  ((∃ st1, GetRulesOfResource res st = (Panic nilDeref, st1))
   ↔ ∃ tc c, tc ∈ tcs ∧ ctrls (heap st) !! tc = Some c ∧ rule c = None)
  ∧ ((∃ s st1, GetRulesOfResource res st = (Ok s, st1))
     ↔ ¬ ∃ tc c, tc ∈ tcs ∧ ctrls (heap st) !! tc = Some c ∧ rule c = None)
  ∧ ∃ s st1, GetRules range st = (Ok s, st1).
Proof.
  intros Hnd Hres.
  pose proof (noDangling_entry _ _ _ _ Hnd Hres) as Hentry.
  destruct (rulesOfResource_spec _ _ Hentry) as (l & Hl & Hwf & _).
  destruct (rulesOfResource_rules (heap st) tcs) as (l' & Hl' & Hf).
  { eapply Forall_impl; [exact Hentry|]. intros tc (c & Hc & _). by exists c. }
  assert (l' = l) as -> by congruence.
  assert (None ∈ l
          ↔ ∃ tc c, tc ∈ tcs ∧ ctrls (heap st) !! tc = Some c ∧ rule c = None)
    as Hnil.
  { split.
    - intros [i Hi]%list_elem_of_lookup.
      destruct (Forall2_lookup_r _ _ _ i None Hf Hi) as (tc & Htc & c & Hc & Hr).
      exists tc, c. split_and!; [|done..]. by eapply list_elem_of_lookup_2.
    - intros (tc & c & [i Hi]%list_elem_of_lookup & Hc & Hr).
      destruct (Forall2_lookup_l _ _ _ i tc Hf Hi) as (p & Hp & c' & Hc' & Hr').
      assert (c' = c) as -> by congruence. rewrite Hr in Hr'. subst p.
      by eapply list_elem_of_lookup_2. }
  rewrite <- Hnil.
  assert (GetRulesOfResource res st = copySlice (Ok (Slice l)) st) as ->.
  { unfold GetRulesOfResource, getRulesOfResource. by rewrite Hres, Hl. }
  unfold copySlice. cbn [elems].
  split_and!; [| |by apply (GetRules_total range range_perm)].
  - split.
    + intros [st1 Hcopy] .
      destruct (decide (None ∈ l)) as [|Hn]; [done|].
      rewrite (copyRules_Some _ _ _ (mapM_omap _ _ Hwf Hn)) in Hcopy. done.
    + intros Hin. destruct (copyRules_nil _ _ Hwf Hin) as (h' & ->).
      by eexists.
  - split.
    + intros (s & st1 & Hcopy) Hin.
      destruct (copyRules_nil _ _ Hwf Hin) as (h' & Hc).
      by rewrite Hc in Hcopy.
    + intros Hn. rewrite (copyRules_Some _ _ _ (mapM_omap _ _ Hwf Hn)).
      by eexists _, _.
Qed.

Lemma GetRules_values st (f : string → list Rule) :
  (∀ res tcs, tcMap st !! res = Some tcs →
              ruleValues (heap st) tcs = Some (f res)) →
  returned (GetRules range st)
  = Some (Some <$> ((range (tcMap st)).*1 ≫= f)).
Proof.
  intros Hf. unfold GetRules, getRules, rulesFrom. case_decide as Hsize.
  - rewrite (range_empty range range_perm _ Hsize).
    by apply returned_copySlice.
  - destruct (rulesFromLoop_values (heap st) (range (tcMap st)) f)
      as (ps & Hps & Hm).
    { apply Forall_forall. intros [res tcs] Hin%(range_elem range range_perm).
      by apply Hf. }
    rewrite Hps. cbn [fmap result_fmap]. by apply returned_copySlice.
Qed.

(** X17: the two queries agree: when every controller of the effective map
    carries a rule, [GetRulesOfResource] returns for each resource the
    rules of its controllers, in order, and [GetRules] returns, in the
    order of its traversal, these lists for the resources of the map put
    together: no rule more, none less. *)
Theorem GetRules_collects_resources (st : State) :
  carriesRules (heap st) (tcMap st) →
  ∃ f : string → list Rule,
    (∀ res, returned (GetRulesOfResource res st) = Some (Some <$> f res))
    ∧ (∀ res tcs, tcMap st !! res = Some tcs →
                  ruleValues (heap st) tcs = Some (f res))
    ∧ (∀ res, tcMap st !! res = None → f res = [])
    ∧ ∃ vs, returned (GetRules range st) = Some (Some <$> vs)
            ∧ vs ≡ₚ (map_to_list (tcMap st)).*1 ≫= f.
Proof.
  intros Hcarry.
  set (f := λ res, match tcMap st !! res with
                   | Some tcs => default [] (ruleValues (heap st) tcs)
                   | None => []
                   end).
  assert (∀ res tcs, tcMap st !! res = Some tcs →
                     ruleValues (heap st) tcs = Some (f res)) as Hf.
  { intros res tcs Hres. unfold f. rewrite Hres.
    by destruct (Hcarry _ _ Hres) as [vs ->]. }
  exists f. split_and!; [|done| |].
  - intros res. unfold GetRulesOfResource, getRulesOfResource.
    destruct (tcMap st !! res) as [tcs|] eqn:Hres.
    + destruct (rulesOfResource_values _ _ _ (Hf _ _ Hres)) as (ps & -> & Hm).
      cbn [fmap result_fmap]. by apply returned_copySlice.
    + unfold f. rewrite Hres. by apply returned_copySlice.
  - intros res Hres. unfold f. by rewrite Hres.
  - eexists. split; [by apply GetRules_values|]. by rewrite range_perm.
Qed.

End EffectiveMap.

(** ** Where the controllers come from *)

Lemma generatedFor_further reg p rs h h1 h' res tc :
  extends h h1 → generatedFor reg rs h1 h' res tc →
  generatedFor reg (p :: rs) h h' res tc.
Proof.
  intros Hext (q & r & g & Hin & Hq & Hv & Hres & Hg & Hgr).
  pose proof Hext as [Hrules _]. apply extends_length in Hext.
  exists q, r, g. split_and!; try done.
  - by apply list_elem_of_further.
  - by rewrite <- Hrules.
  - destruct Hgr as [?|(mk & ? & ? & ?)]; [by left|right].
    exists mk. split_and!; [done|lia|done].
Qed.

Lemma buildFlowMapLoop_generated reg rs : ∀ m failed h m' failed' h',
  buildFlowMapLoop reg rs m failed h = (Ok (m', failed'), h') →
  ∀ res tcs tc, m' !! res = Some tcs → tc ∈ tcs →
    (∃ tcs0, m !! res = Some tcs0 ∧ tc ∈ tcs0)
    ∨ generatedFor reg rs h h' res tc.
Proof.
  induction rs as [|[p|] rs IH]; intros m failed h m' failed' h'.
  - intros [= <- <- <-] res tcs tc Hres Htc. left. eauto.
  - cbn [buildFlowMapLoop]. unfold derefRule.
    destruct (rules h !! p) as [v|] eqn:Hp; [|done].
    assert (∀ m0 f0,
              buildFlowMapLoop reg rs m0 f0 h = (Ok (m', failed'), h') →
              ∀ res tcs tc, m' !! res = Some tcs → tc ∈ tcs →
                (∃ tcs0, m0 !! res = Some tcs0 ∧ tc ∈ tcs0)
                ∨ generatedFor reg (Some p :: rs) h h' res tc) as Hrest.
    { intros m0 f0 Hloop res tcs tc Hres Htc.
      destruct (IH _ _ _ _ _ _ Hloop _ _ _ Hres Htc) as [?|Hgen]; [by left|].
      right. eapply generatedFor_further; [apply extends_refl|done]. }
    destruct (IsValidRule (Some v)) eqn:Hv; [by apply Hrest|].
    destruct (from_option (isDuplicate h p) _ _) as [[|]|];
      [by apply Hrest| |done].
    destruct (reg !! key v) as [g|] eqn:Hg; [|by apply Hrest].
    destruct (g v) as [msg| |mk|tsc] eqn:Hgv; [done|by apply Hrest| |].
    + cbn [allocCtrl]. intros Hloop res tcs tc Hres Htc.
      pose proof (buildFlowMapLoop_extends _ _ _ _ _ _ _ Hloop) as Hext.
      assert (extends h {| rules := rules h; ctrls := ctrls h ++ [mk p] |})
        as Hext0 by apply (extends_allocCtrl (mk p) h).
      destruct (IH _ _ _ _ _ _ Hloop res tcs tc Hres Htc)
        as [(tcs0 & Hres0 & Htc0)|Hgen].
      * destruct (decide (res = Resource v)) as [->|Hne].
        -- rewrite lookup_insert_eq in Hres0. injection Hres0 as <-.
           apply elem_of_app in Htc0 as [Htc0|Htc0%list_elem_of_singleton].
           ++ left. destruct (m !! Resource v) as [old|]; [eauto|].
              cbn in Htc0. by apply elem_of_nil in Htc0.
           ++ right. subst tc. exists p, v, g.
              split_and!; try done; [apply list_elem_of_here|].
              right. exists mk. split_and!; [done|done|].
              eapply extends_ctrl; [exact Hext|]. cbn.
              by apply list_lookup_middle.
        -- rewrite lookup_insert_ne in Hres0 by done. left. eauto.
      * right. by eapply generatedFor_further.
    + intros Hloop res tcs tc Hres Htc.
      destruct (IH _ _ _ _ _ _ Hloop res tcs tc Hres Htc)
        as [(tcs0 & Hres0 & Htc0)|Hgen].
      * destruct (decide (res = Resource v)) as [->|Hne].
        -- rewrite lookup_insert_eq in Hres0. injection Hres0 as <-.
           apply elem_of_app in Htc0 as [Htc0|Htc0%list_elem_of_singleton].
           ++ left. destruct (m !! Resource v) as [old|]; [eauto|].
              cbn in Htc0. by apply elem_of_nil in Htc0.
           ++ right. subst tc. exists p, v, g.
              split_and!; try done; [apply list_elem_of_here|]. by left.
        -- rewrite lookup_insert_ne in Hres0 by done. left. eauto.
      * right. eapply generatedFor_further; [apply extends_refl|done].
  - cbn [buildFlowMapLoop]. intros Hloop res tcs tc Hres Htc.
    destruct (IH _ _ _ _ _ _ Hloop _ _ _ Hres Htc) as [?|Hgen]; [by left|].
    right. eapply generatedFor_further; [apply extends_refl|done].
Qed.

Section Provenance.

Variable range : TrafficControllerMap → list (string * list addr).

(** X18: whatever the generators do, the effective map after a load without
    error holds nothing but what the generators returned in this call:
    every controller filed under a resource was returned by the
    registered generator of a valid input rule of that resource, either
    as a controller that existed or as one built from the rule's
    pointer in a new cell.  No controller of the previous map stays
    unless a generator hands it back. *)
Theorem controllers_come_from_generators (rs : slice (option addr)) (st : State)
    (ret : bool) (failed : slice (option addr)) (st' : State) :
  LoadRules range rs st = ((ret, None, failed), st') →
  ∀ res tcs tc, tcMap st' !! res = Some tcs → tc ∈ tcs →
    generatedFor (tcGenFuncMap st) (elems rs) (heap st) (heap st') res tc.
Proof.
  intros (m & Hbody & _ & <-)%LoadRules_Ok.
  apply onRuleUpdateBody_Ok in Hbody as [Hbuild _].
  revert Hbuild. unfold buildFlowMap. case_decide.
  - intros [= <- <- <-] res tcs tc Hres. by rewrite lookup_empty in Hres.
  - intros Hloop res tcs tc Hres Htc.
    destruct (buildFlowMapLoop_generated _ _ _ _ _ _ _ _ Hloop _ _ _ Hres Htc)
      as [(tcs0 & Hres0 & _)|Hgen]; [|done].
    by rewrite lookup_empty in Hres0.
Qed.

End Provenance.

(** ** The order of the traversal *)

Section Orders.

Variables range1 range2 : TrafficControllerMap → list (string * list addr).
Hypothesis range1_perm : ∀ m, range1 m ≡ₚ map_to_list m.
Hypothesis range2_perm : ∀ m, range2 m ≡ₚ map_to_list m.

(** X19: Go visits the effective map in an order of its own at every load;
    the order does not show.  Under the generator contract, and when
    the controllers of the effective map carry rules, [LoadRules]
    returns the same results and leaves the same state whatever the
    order of the traversal. *)
Theorem LoadRules_any_order (rs : slice (option addr)) (st : State) :
  honoursContract (heap st) (tcGenFuncMap st) →
  carriesRules (heap st) (tcMap st) →
  LoadRules range1 rs st = LoadRules range2 rs st.
Proof.
  intros Hcon Hcarry. unfold LoadRules, onRuleUpdate, onRuleUpdateBody.
  pose proof (buildFlowMap_spec (tcGenFuncMap st) rs (heap st) Hcon) as Hspec.
  destruct (buildFlowMap (tcGenFuncMap st) rs (heap st))
    as [[[m f]|msg] h1]; [|done].
  destruct Hspec as (_ & Hext & _ & Hrep).
  assert (rulesChanged range1 h1 (tcMap st) m
          = rulesChanged range2 h1 (tcMap st) m) as ->; [|done].
  unfold rulesChanged. case_decide; [done|].
  pose proof (carriesRules_extends _ _ _ Hcarry Hext) as Hold.
  pose proof (represents_carriesRules _ _ _ Hrep) as Hnew.
  destruct (diffLoop_spec h1 m (range1 (tcMap st))) as (b1 & -> & Hb1).
  { apply Forall_forall. intros [res tcs] Hin%(range_elem range1 range1_perm).
    by apply (Hold res). }
  { done. }
  destruct (diffLoop_spec h1 m (range2 (tcMap st))) as (b2 & -> & Hb2).
  { apply Forall_forall. intros [res tcs] Hin%(range_elem range2 range2_perm).
    by apply (Hold res). }
  { done. }
  f_equal. rewrite range1_perm in Hb1. rewrite range2_perm in Hb2.
  assert (b1 = false ↔ b2 = false) as Hiff by (by rewrite Hb1, Hb2).
  destruct b1, b2; try done.
  - destruct Hiff as [_ Hiff]. by specialize (Hiff eq_refl).
  - destruct Hiff as [Hiff _]. by specialize (Hiff eq_refl).
Qed.

End Orders.

(** ** The flag and the queries *)

Section Observed.

Variables range1 range2 range3 range4
  : TrafficControllerMap → list (string * list addr).
Hypothesis range2_perm : ∀ m, range2 m ≡ₚ map_to_list m.
Hypothesis range3_perm : ∀ m, range3 m ≡ₚ map_to_list m.
Hypothesis range4_perm : ∀ m, range4 m ≡ₚ map_to_list m.

(** X20: the flag says what the queries show.  When [LoadRules] follows
    a load without error, under the generator contract, it returns
    [changed = false] exactly when [GetRules] returns after it the rules
    that it returned before it, up to their order. *)
Theorem changed_iff_GetRules_differs (rs1 rs2 : slice (option addr))
    (st : State) (ret1 : bool) (failed1 : slice (option addr)) (st1 : State)
    (ret2 : bool) (failed2 : slice (option addr)) (st2 : State) :
  honoursContract (heap st) (tcGenFuncMap st) →
  LoadRules range1 rs1 st = ((ret1, None, failed1), st1) →
  LoadRules range2 rs2 st1 = ((ret2, None, failed2), st2) →
  ∃ vs1 vs2, returned (GetRules range3 st1) = Some (Some <$> vs1)
             ∧ returned (GetRules range4 st2) = Some (Some <$> vs2)
             ∧ (ret2 = false ↔ vs1 ≡ₚ vs2).
Proof.
  intros Hcon Hload1 Hload2.
  destruct (reload_flag range1 range2 range2_perm _ _ _ _ _ _ _ _ _ Hcon
              Hload1 Hload2) as (Hrep1 & Hrep2 & Hflag).
  destruct (GetRules_represents_perm range3 _ _ range3_perm Hrep1)
    as (vs1 & Hvs1 & Hperm1).
  destruct (GetRules_represents_perm range4 _ _ range4_perm Hrep2)
    as (vs2 & Hvs2 & Hperm2).
  exists vs1, vs2. split; [done|]. split; [done|].
  rewrite Hflag. split.
  - intros Heq. etrans; [exact Hperm1|]. etrans; [|symmetry; exact Hperm2].
    apply NoDup_Permutation; [apply firstSeen_NoDup..|].
    intros r. rewrite !elem_of_firstSeen. apply Heq.
  - intros Hperm r.
    assert (firstSeen (acceptedValues (tcGenFuncMap st) (rules (heap st))
                         (elems rs1))
            ≡ₚ firstSeen (acceptedValues (tcGenFuncMap st) (rules (heap st))
                            (elems rs2))) as Hacc.
    { etrans; [symmetry; exact Hperm1|]. by etrans. }
    rewrite <- (elem_of_firstSeen (acceptedValues _ _ (elems rs1))),
      <- (elem_of_firstSeen (acceptedValues _ _ (elems rs2))).
    by rewrite Hacc.
Qed.

End Observed.

(** ** Runs on the states of the tests *)

(** [map_to_list] and its reverse are traversal orders. *)
Lemma map_to_list_range (m : TrafficControllerMap) : map_to_list m ≡ₚ map_to_list m.
Proof. reflexivity. Defined.

Lemma reverseRange_range (m : TrafficControllerMap) : reverseRange m ≡ₚ map_to_list m.
Proof. apply reverse_Permutation. Defined.


(** [loadedState] is what loading the rules at 0, 1 and 2 gives. *)
Example loadedState_loaded :
  LoadRules map_to_list (Slice [Some 0; Some 1; Some 2]%nat) emptyState
  = ((true, None, NilSlice), loadedState).
Proof. vm_compute. reflexivity. Qed.

(** The internal [getRules] returns the pointers of the effective rules:
    a write through one of them shows in the next [GetRules]. *)
Example getRules_shares_cells :
  getRules map_to_list loadedState = Ok (Slice [Some 0; Some 1; Some 2]%nat)
  ∧ returned (GetRules map_to_list
                (withHeap loadedState (storeRule 0 customRule (heap loadedState))))
    ≠ returned (GetRules map_to_list loadedState).
Proof. split; [vm_compute; reflexivity|]. vm_compute. intros [=]. Qed.

(** C2 on [loadedState], reloaded with the rules of its resources in
    another order. *)
Lemma changed_iff_rule_sets_differ_witness :
  ∃ m failedRules h',
    buildFlowMap (tcGenFuncMap loadedState) (Slice [Some 2; Some 1; Some 3]%nat)
      (heap loadedState) = (Ok (m, failedRules), h')
    ∧ distinctRules h' (tcMap loadedState) ∧ distinctRules h' m
    ∧ ∃ ret st',
        LoadRules map_to_list (Slice [Some 2; Some 1; Some 3]%nat) loadedState
        = ((ret, None, failedRules), st')
        ∧ (ret = false ↔ sameRuleSets h' (tcMap loadedState) m).
Proof.
  eexists _, _, _. split; [vm_compute; reflexivity|].
  split; [apply distinctRulesb_sound; vm_compute; reflexivity|].
  split; [apply distinctRulesb_sound; vm_compute; reflexivity|].
  apply (changed_iff_rule_sets_differ map_to_list map_to_list_range).
  - vm_compute. reflexivity.
  - apply distinctRulesb_sound. vm_compute. reflexivity.
  - apply distinctRulesb_sound. vm_compute. reflexivity.
Defined.


(** C4 on the empty state, loading two instances of one rule value. *)
Lemma LoadRules_deduplicates_witness :
  honoursContract (heap emptyState) (tcGenFuncMap emptyState)
  ∧ tcMap emptyState = ∅
  ∧ rules (heap emptyState) !! 0%nat = Some ruleAbc1
  ∧ rules (heap emptyState) !! 3%nat = Some ruleAbc1
  ∧ accepted (tcGenFuncMap emptyState) ruleAbc1
  ∧ ∃ tc st',
      LoadRules map_to_list (Slice [Some 0%nat; Some 3%nat]) emptyState
      = ((true, None, NilSlice), st')
      ∧ tcMap st' = {["abc1"%string := [tc]]}
      ∧ ruleOf (heap st') tc = Some ruleAbc1.
Proof.
  split; [apply initGenFuncMap_honoursContract|].
  split; [reflexivity|]. split; [reflexivity|]. split; [reflexivity|].
  split; [vm_compute; exact I|].
  apply (proj2 (LoadRules_deduplicates map_to_list emptyState
                  (initGenFuncMap_honoursContract _)) 0%nat 3%nat ruleAbc1).
  - reflexivity.
  - reflexivity.
  - reflexivity.
  - vm_compute. exact I.
Defined.

(** C5 on goodRule1 of TestIsValidFlowRule. *)
Lemma IsValidRule_first_violation_witness :
  IsValidRule (Some goodRule1) = None.
Proof.
  apply (proj2 (proj2 (proj2 IsValidRule_first_violation)) goodRule1);
    try reflexivity; vm_compute; try discriminate; intros [? ?]; discriminate.
Defined.

(** C6 on a built-in strategy with a custom behavior. *)
Lemma generator_registry_protected_witness :
  (Direct ≤ Direct ≤ WarmUp ∨ Reject ≤ 112 ≤ Throttling)
  ∧ SetTrafficShapingGenerator Direct 112 (Some emptyControllerGen) emptyState
    = (Some protectedError, emptyState)
  ∧ RemoveTrafficShapingGenerator Direct 112 emptyState
    = (Some protectedError, emptyState).
Proof.
  split; [left; vm_compute; split; discriminate|].
  apply (proj1 (proj2 (generator_registry_protected Direct 112
                         emptyControllerGen emptyState))).
  left. vm_compute. split; discriminate.
Defined.


(** What the queries return on [loadedState], and in which cells. *)
Example queries_on_loadedState :
  GetRules map_to_list loadedState
  = (Ok (Slice [6; 7; 8]%nat),
     withHeap loadedState
       {| rules := exampleRules ++ [ruleAbc1; ruleAbc1Qps; ruleAbc2];
          ctrls := ctrls (heap loadedState) |})
  ∧ returned (GetRules map_to_list loadedState)
    = Some [Some ruleAbc1; Some ruleAbc1Qps; Some ruleAbc2]
  ∧ returned (GetRulesOfResource "abc1" loadedState)
    = Some [Some ruleAbc1; Some ruleAbc1Qps]
  ∧ returned (GetRulesOfResource "abc2" loadedState) = Some [Some ruleAbc2].
Proof. split_and!; vm_compute; reflexivity. Qed.


(** C9 (amended) on [loadedState], reloaded with its own rules. *)
Lemma reload_swaps_in_candidate_witness :
  ∃ st', LoadRules map_to_list (Slice [Some 0; Some 1; Some 2]%nat) loadedState
         = ((false, None, NilSlice), st')
    ∧ buildFlowMap (tcGenFuncMap loadedState) (Slice [Some 0; Some 1; Some 2]%nat)
        (heap loadedState) = (Ok (tcMap st', NilSlice), heap st')
    ∧ (constructs (tcGenFuncMap loadedState) →
       ∀ res tcs tc, tcMap st' !! res = Some tcs → tc ∈ tcs →
         (length (ctrls (heap loadedState)) ≤ tc < length (ctrls (heap st')))%nat
         ∧ (allocated (heap loadedState) (tcMap loadedState) →
            ∀ res0 tcs0, tcMap loadedState !! res0 = Some tcs0 → tc ∉ tcs0)).
Proof.
  eexists. split; [vm_compute; reflexivity|].
  eapply (reload_swaps_in_candidate map_to_list). vm_compute. reflexivity.
Defined.

(** C10 on [loadedState] and a resource it does not hold. *)
Lemma queries_empty_not_nil_witness :
  tcMap loadedState !! "unknown"%string = None
  ∧ GetRulesOfResource "unknown" loadedState = (Ok (Slice []), loadedState).
Proof.
  split; [reflexivity|].
  apply (proj1 (queries_empty_not_nil map_to_list loadedState)). reflexivity.
Defined.


(** C4, the claim as stated fails: a generator that returns the one
    controller of its closure for two different rules of a resource
    gives a load without error after which the list of the resource
    holds that controller twice, so two controllers of the list carry
    equal rules. *)
Lemma shared_controller_filed_twice :
  ∃ st', LoadRules map_to_list (Slice [Some 0; Some 1]%nat) sharedPairState
         = ((true, None, NilSlice), st')
         ∧ tcMap st' !! "test-customized-tc"%string = Some [0; 0]%nat
         ∧ ruleValues (heap st') [0; 0]%nat = Some [customRule; customRule]
         ∧ ¬ distinctRules (heap st') (tcMap st').
Proof.
  exists (LoadRules map_to_list (Slice [Some 0; Some 1]%nat) sharedPairState).2.
  assert (ruleValues
            (heap (LoadRules map_to_list (Slice [Some 0; Some 1]%nat)
                     sharedPairState).2) [0; 0]%nat
          = Some [customRule; customRule]) as Hvs'
    by (vm_compute; reflexivity).
  split; [vm_compute; reflexivity|].
  split; [vm_compute; reflexivity|]. split; [exact Hvs'|].
  intros Hd.
  destruct (Hd "test-customized-tc"%string [0; 0]%nat) as (vs & Hvs & Hnd);
    [vm_compute; reflexivity|].
  rewrite Hvs' in Hvs. injection Hvs as <-.
  apply NoDup_cons in Hnd as [Hn _]. apply Hn, list_elem_of_here.
Qed.


(** C9, the claim as stated fails: with a generator that returns the
    controller its closure holds, as the one of
    TestSetAndRemoveTrafficShapingGenerator does, a reload that reports
    no change holds the very controller that the effective map held
    before. *)
Lemma shared_generator_keeps_controller : ¬ reloadBuildsNewControllers map_to_list.
Proof.
  intros Hnew.
  assert (∃ st1 st2,
            LoadRules map_to_list (Slice [Some 0%nat]) sharedState
            = ((true, None, NilSlice), st1)
            ∧ LoadRules map_to_list (Slice [Some 0%nat]) st1
              = ((false, None, NilSlice), st2)
            ∧ tcMap st1 !! "test-customized-tc"%string = Some [0%nat]
            ∧ tcMap st2 !! "test-customized-tc"%string = Some [0%nat])
    as (st1 & st2 & H1 & H2 & Hm1 & Hm2).
  { eexists _, _. split; [vm_compute; reflexivity|].
    split; [vm_compute; reflexivity|]. split; vm_compute; reflexivity. }
  apply (Hnew _ _ _ _ _ _ _ H1 H2 _ _ _ 0%nat Hm1 Hm2); by apply list_elem_of_singleton.
Qed.

(** ** More runs on the states of the tests *)

Lemma honoursContract_insert h reg k g :
  (∀ r, keepsRule h g r) → honoursContract h reg →
  honoursContract h (<[k := g]> reg).
Proof.
  intros Hg Hcon r g' [[_ <-]|[_ Hg']]%lookup_insert_Some; [done|].
  by apply Hcon.
Qed.

Lemma honoursContract_delete h reg k :
  honoursContract h reg → honoursContract h (delete k reg).
Proof. intros Hcon r g [_ Hg]%lookup_delete_Some. by apply Hcon. Qed.

(** [tscLoaded] is what the test's calls give. *)
Example tscLoaded_loaded :
  LoadRules map_to_list (Slice [Some 0%nat])
    (SetTrafficShapingGenerator 111 112 (Some sharedControllerGen) tscState).2
  = ((true, None, NilSlice), tscLoaded).
Proof. vm_compute. reflexivity. Qed.

(** [ClearRules] on [loadedState]. *)
Lemma ClearRules_clears_witness :
  ∃ st', ClearRules map_to_list loadedState = (None, st')
         ∧ tcMap st' = ∅ ∧ heap st' = heap loadedState
         ∧ tcGenFuncMap st' = tcGenFuncMap loadedState
         ∧ GetRules map_to_list st' = (Ok (Slice []), st')
         ∧ ∀ res, GetRulesOfResource res st' = (Ok (Slice []), st')
                  ∧ getTrafficControllerListFor res st' = NilSlice.
Proof. apply (ClearRules_clears map_to_list map_to_list_range loadedState). Defined.

(** An invalid rule, a nil pointer and a rule without generator, loaded
    on [loadedState]. *)
Lemma LoadRules_all_rejected_witness :
  allRejected (tcGenFuncMap loadedState) (rules (heap loadedState))
    (elems (Slice [Some 4%nat; None; Some 5%nat]))
  ∧ LoadRules map_to_list (Slice [Some 4%nat; None; Some 5%nat]) loadedState
    = ((bool_decide (tcMap loadedState ≠ ∅), None,
        appendAll NilSlice
          (filter (λ p, p ≠ None) (elems (Slice [Some 4%nat; None; Some 5%nat])))),
       {| heap := heap loadedState; tcGenFuncMap := tcGenFuncMap loadedState;
          tcMap := ∅ |}).
Proof.
  assert (allRejected (tcGenFuncMap loadedState) (rules (heap loadedState))
            (elems (Slice [Some 4%nat; None; Some 5%nat]))) as Hall.
  { apply Forall_cons. split; [exists badRule1; split; [reflexivity|]|].
    { vm_compute. exact I. }
    apply Forall_cons. split; [exact I|].
    apply Forall_cons. split; [exists customRule; split; [reflexivity|]|].
    { vm_compute. exact I. }
    apply Forall_nil. exact I. }
  split; [exact Hall|].
  apply (LoadRules_all_rejected map_to_list map_to_list_range _ _ Hall).
Defined.

(** A load with a rule of each kind on the empty state. *)
Lemma failedRules_sublist_witness :
  ∃ ret err failed st',
    LoadRules map_to_list (Slice [Some 0%nat; None; Some 4%nat; Some 5%nat])
      emptyState = ((ret, err, failed), st')
    ∧ elems failed
      `sublist_of` elems (Slice [Some 0%nat; None; Some 4%nat; Some 5%nat])
    ∧ (err = None → None ∉ elems failed)
    ∧ (err ≠ None
       → failed = Slice [Some 0%nat; None; Some 4%nat; Some 5%nat] ∧ ret = false).
Proof.
  eexists _, _, _, _. split; [vm_compute; reflexivity|].
  eapply (failedRules_sublist map_to_list
            (Slice [Some 0%nat; None; Some 4%nat; Some 5%nat]) emptyState).
  vm_compute. reflexivity.
Defined.

Lemma controller_lists_nonempty_witness :
  ∃ ret failed st',
    LoadRules map_to_list (Slice [Some 0%nat; None; Some 4%nat; Some 5%nat])
      emptyState = ((ret, None, failed), st')
    ∧ ∀ name, (tcMap st' !! name = None
               ∧ getTrafficControllerListFor name st' = NilSlice)
              ∨ ∃ tc tcs, getTrafficControllerListFor name st' = Slice (tc :: tcs).
Proof.
  eexists _, _, _. split; [vm_compute; reflexivity|].
  eapply (controller_lists_nonempty map_to_list
            (Slice [Some 0%nat; None; Some 4%nat; Some 5%nat]) emptyState).
  vm_compute. reflexivity.
Defined.

(** Round trips on the empty state: two rules of one resource, with a
    second instance of the first, an invalid rule and a rule of another
    resource. *)
Lemma LoadRules_then_GetRulesOfResource_witness :
  honoursContract (heap emptyState) (tcGenFuncMap emptyState)
  ∧ ∃ ret failed st',
      LoadRules map_to_list
        (Slice [Some 1%nat; Some 0%nat; Some 4%nat; Some 3%nat; Some 2%nat])
        emptyState = ((ret, None, failed), st')
      ∧ ∀ res, returned (GetRulesOfResource res st')
               = Some (Some <$> keptFor (tcGenFuncMap emptyState) (heap emptyState)
                                  (elems (Slice [Some 1%nat; Some 0%nat; Some 4%nat;
                                                 Some 3%nat; Some 2%nat])) res).
Proof.
  split; [apply initGenFuncMap_honoursContract|].
  eexists _, _, _. split; [vm_compute; reflexivity|].
  eapply (LoadRules_then_GetRulesOfResource map_to_list
            (Slice [Some 1%nat; Some 0%nat; Some 4%nat; Some 3%nat; Some 2%nat])
            emptyState).
  - apply initGenFuncMap_honoursContract.
  - vm_compute. reflexivity.
Defined.

Lemma LoadRules_then_GetRules_witness :
  honoursContract (heap emptyState) (tcGenFuncMap emptyState)
  ∧ ∃ ret failed st',
      LoadRules map_to_list
        (Slice [Some 1%nat; Some 0%nat; Some 4%nat; Some 3%nat; Some 2%nat])
        emptyState = ((ret, None, failed), st')
      ∧ ∃ vs, returned (GetRules reverseRange st') = Some (Some <$> vs)
              ∧ NoDup vs
              ∧ (∀ r, r ∈ vs
                      ↔ r ∈ acceptedValues (tcGenFuncMap emptyState)
                              (rules (heap emptyState))
                              (elems (Slice [Some 1%nat; Some 0%nat; Some 4%nat;
                                             Some 3%nat; Some 2%nat])))
              ∧ Forall (λ r, IsValidRule (Some r) = None
                             ∧ is_Some (tcGenFuncMap emptyState !! key r)) vs.
Proof.
  split; [apply initGenFuncMap_honoursContract|].
  eexists _, _, _. split; [vm_compute; reflexivity|].
  eapply (LoadRules_then_GetRules map_to_list reverseRange reverseRange_range
            (Slice [Some 1%nat; Some 0%nat; Some 4%nat; Some 3%nat; Some 2%nat])
            emptyState).
  - apply initGenFuncMap_honoursContract.
  - vm_compute. reflexivity.
Defined.

(** The invalid rule at address 4 is reported, and is not effective. *)
Lemma failed_iff_not_effective_witness :
  honoursContract (heap emptyState) (tcGenFuncMap emptyState)
  ∧ Some 4%nat ∈ elems (Slice [Some 0%nat; Some 4%nat; Some 3%nat])
  ∧ rules (heap emptyState) !! 4%nat = Some badRule1
  ∧ ∃ ret failed st',
      LoadRules map_to_list (Slice [Some 0%nat; Some 4%nat; Some 3%nat]) emptyState
      = ((ret, None, failed), st')
      ∧ ∃ vs, returned (GetRulesOfResource (Resource badRule1) st')
              = Some (Some <$> vs)
              ∧ (Some 4%nat ∈ elems failed ↔ badRule1 ∉ vs).
Proof.
  assert (Some 4%nat ∈ elems (Slice [Some 0%nat; Some 4%nat; Some 3%nat])) as Hin
    by (apply list_elem_of_further, list_elem_of_here).
  split; [apply initGenFuncMap_honoursContract|].
  split; [exact Hin|]. split; [reflexivity|].
  eexists _, _, _. split; [vm_compute; reflexivity|].
  eapply (failed_iff_not_effective map_to_list
            (Slice [Some 0%nat; Some 4%nat; Some 3%nat]) emptyState).
  - apply initGenFuncMap_honoursContract.
  - vm_compute. reflexivity.
  - exact Hin.
  - reflexivity.
Defined.


(** A first load of an invalid rule alone. *)
Lemma first_load_changed_witness :
  tcMap emptyState = ∅
  ∧ ∃ ret failed st',
      LoadRules map_to_list (Slice [Some 4%nat]) emptyState
      = ((ret, None, failed), st')
      ∧ (ret = true ↔ tcMap st' ≠ ∅)
      ∧ (honoursContract (heap emptyState) (tcGenFuncMap emptyState) →
         ret = true
         ↔ ∃ r, r ∈ acceptedValues (tcGenFuncMap emptyState)
                      (rules (heap emptyState)) (elems (Slice [Some 4%nat]))).
Proof.
  split; [reflexivity|].
  eexists _, _, _. split; [vm_compute; reflexivity|].
  eapply (first_load_changed map_to_list map_to_list_range
            (Slice [Some 4%nat]) emptyState).
  - reflexivity.
  - vm_compute. reflexivity.
Defined.


(** The custom generator of [panickingState] removed, then a load of
    the rule that needs it and of a rule of a built-in strategy. *)
Lemma removed_generator_rules_fail_witness :
  RemoveTrafficShapingGenerator 111 112 panickingState
  = (None, (RemoveTrafficShapingGenerator 111 112 panickingState).2)
  ∧ honoursContract
      (heap (RemoveTrafficShapingGenerator 111 112 panickingState).2)
      (tcGenFuncMap (RemoveTrafficShapingGenerator 111 112 panickingState).2)
  ∧ ∃ ret failed st2,
      LoadRules map_to_list (Slice [Some 5%nat; Some 0%nat])
        (RemoveTrafficShapingGenerator 111 112 panickingState).2
      = ((ret, None, failed), st2)
      ∧ (∀ p r, Some p ∈ elems (Slice [Some 5%nat; Some 0%nat]) →
                rules (heap panickingState) !! p = Some r →
                key r = (111, 112) → Some p ∈ elems failed)
      ∧ (∀ res vs, returned (GetRulesOfResource res st2) = Some vs →
                   ∀ v, Some v ∈ vs → key v ≠ (111, 112)).
Proof.
  assert (honoursContract
            (heap (RemoveTrafficShapingGenerator 111 112 panickingState).2)
            (tcGenFuncMap (RemoveTrafficShapingGenerator 111 112 panickingState).2))
    as Hcon.
  { apply (honoursContract_delete (heap panickingState)
             (tcGenFuncMap panickingState) (111, 112)).
    apply honoursContract_insert; [done|]. apply initGenFuncMap_honoursContract. }
  split; [reflexivity|]. split; [exact Hcon|].
  eexists _, _, _. split; [vm_compute; reflexivity|].
  eapply (removed_generator_rules_fail map_to_list 111 112 panickingState).
  - reflexivity.
  - exact Hcon.
  - vm_compute. reflexivity.
Defined.

(** The registry calls of TestSetAndRemoveTrafficShapingGenerator. *)
Lemma registry_round_trips_witness :
  ¬ (Direct ≤ 111 ≤ WarmUp) ∧ ¬ (Reject ≤ 112 ≤ Throttling)
  ∧ (tcGenFuncMap tscState !! (111, 112) = None →
     RemoveTrafficShapingGenerator 111 112
       (SetTrafficShapingGenerator 111 112 (Some sharedControllerGen) tscState).2
     = (None, tscState))
  ∧ SetTrafficShapingGenerator 111 112 (Some panickingGen)
      (SetTrafficShapingGenerator 111 112 (Some sharedControllerGen) tscState).2
    = SetTrafficShapingGenerator 111 112 (Some panickingGen) tscState
  ∧ SetTrafficShapingGenerator 111 112 (Some sharedControllerGen)
      (RemoveTrafficShapingGenerator 111 112 tscState).2
    = SetTrafficShapingGenerator 111 112 (Some sharedControllerGen) tscState
  ∧ RemoveTrafficShapingGenerator 111 112
      (RemoveTrafficShapingGenerator 111 112 tscState).2
    = RemoveTrafficShapingGenerator 111 112 tscState.
Proof.
  assert (¬ (Direct ≤ 111 ≤ WarmUp)) as Hts by (unfold Direct, WarmUp; lia).
  assert (¬ (Reject ≤ 112 ≤ Throttling)) as Hcb
    by (unfold Reject, Throttling; lia).
  split; [exact Hts|]. split; [exact Hcb|].
  apply (registry_round_trips 111 112 sharedControllerGen panickingGen tscState
           Hts Hcb).
Defined.

(** A load under the generators of [init]: an invalid rule and a rule
    of a custom strategy among rules of the built-in ones. *)
Lemma builtin_generators_failures_witness :
  tcGenFuncMap loadedState = initGenFuncMap
  ∧ ∃ ret err failed st',
      LoadRules map_to_list (Slice [Some 5%nat; Some 0%nat; Some 4%nat; None])
        loadedState = ((ret, err, failed), st')
      ∧ (wfPtrs (rules (heap loadedState))
           (elems (Slice [Some 5%nat; Some 0%nat; Some 4%nat; None])) →
         carriesRules (heap loadedState) (tcMap loadedState) → err = None)
      ∧ (err = None →
         elems failed
         = filter (λ p, from_option builtinRejects false
                          (valueOf (rules (heap loadedState)) p))
             (elems (Slice [Some 5%nat; Some 0%nat; Some 4%nat; None]))).
Proof.
  split; [reflexivity|].
  eexists _, _, _, _. split; [vm_compute; reflexivity|].
  eapply (builtin_generators_failures map_to_list map_to_list_range
            (Slice [Some 5%nat; Some 0%nat; Some 4%nat; None]) loadedState).
  - reflexivity.
  - vm_compute. reflexivity.
Defined.

(** The rules of [loadedState], loaded on the empty state. *)
Lemma builtin_controllers_share_rules_witness :
  tcGenFuncMap emptyState = initGenFuncMap
  ∧ ∃ ret failed st',
      LoadRules map_to_list (Slice [Some 0; Some 1; Some 2]%nat) emptyState
      = ((ret, None, failed), st')
      ∧ ∃ s ptrs,
          getRulesOfResource "abc1" st' = Ok s
          ∧ elems s = Some <$> ptrs
          ∧ Forall (λ a, Some a ∈ elems (Slice [Some 0; Some 1; Some 2]%nat)) ptrs
          ∧ ∀ stores,
              returned (GetRulesOfResource "abc1"
                          (withHeap st' (storeAll stores (heap st'))))
              = Some ((λ a, rules (storeAll stores (heap st')) !! a) <$> ptrs).
Proof.
  split; [reflexivity|].
  eexists _, _, _. split; [vm_compute; reflexivity|].
  eapply (builtin_controllers_share_rules map_to_list
            (Slice [Some 0; Some 1; Some 2]%nat) emptyState).
  - reflexivity.
  - vm_compute. reflexivity.
Defined.

(** [tscLoaded]: the controller of the test has no rule. *)
Lemma GetRulesOfResource_panics_on_nil_rule_witness :
  noDangling (heap tscLoaded) (tcMap tscLoaded)
  ∧ tcMap tscLoaded !! "test-customized-tc"%string = Some [0%nat]
  ∧ ((∃ st1, GetRulesOfResource "test-customized-tc" tscLoaded
             = (Panic nilDeref, st1))
     ↔ ∃ tc c, tc ∈ [0%nat] ∧ ctrls (heap tscLoaded) !! tc = Some c
               ∧ rule c = None)
  ∧ ((∃ s st1, GetRulesOfResource "test-customized-tc" tscLoaded = (Ok s, st1))
     ↔ ¬ ∃ tc c, tc ∈ [0%nat] ∧ ctrls (heap tscLoaded) !! tc = Some c
                 ∧ rule c = None)
  ∧ ∃ s st1, GetRules map_to_list tscLoaded = (Ok s, st1).
Proof.
  assert (noDangling (heap tscLoaded) (tcMap tscLoaded)) as Hnd
    by (apply noDanglingb_sound; vm_compute; reflexivity).
  assert (tcMap tscLoaded !! "test-customized-tc"%string = Some [0%nat]) as Hres
    by (vm_compute; reflexivity).
  split; [exact Hnd|]. split; [exact Hres|].
  apply (GetRulesOfResource_panics_on_nil_rule map_to_list map_to_list_range
           tscLoaded "test-customized-tc" [0%nat] Hnd Hres).
Defined.

(** The panic of the test's controller, computed. *)
Example GetRulesOfResource_tsc_panics :
  (GetRulesOfResource "test-customized-tc" tscLoaded).1 = Panic nilDeref
  ∧ (GetRules map_to_list tscLoaded).1 = Ok (Slice []).
Proof. split; vm_compute; reflexivity. Qed.

Lemma GetRules_collects_resources_witness :
  carriesRules (heap loadedState) (tcMap loadedState)
  ∧ ∃ f : string → list Rule,
      (∀ res, returned (GetRulesOfResource res loadedState)
              = Some (Some <$> f res))
      ∧ (∀ res tcs, tcMap loadedState !! res = Some tcs →
                    ruleValues (heap loadedState) tcs = Some (f res))
      ∧ (∀ res, tcMap loadedState !! res = None → f res = [])
      ∧ ∃ vs, returned (GetRules reverseRange loadedState) = Some (Some <$> vs)
              ∧ vs ≡ₚ (map_to_list (tcMap loadedState)).*1 ≫= f.
Proof.
  assert (carriesRules (heap loadedState) (tcMap loadedState)) as Hcarry.
  { apply distinctRules_carriesRules, distinctRulesb_sound.
    vm_compute. reflexivity. }
  split; [exact Hcarry|].
  apply (GetRules_collects_resources reverseRange reverseRange_range loadedState
           Hcarry).
Defined.

(** A load on [sharedState]: the controller of the map is the one that
    the generator's closure holds. *)
Lemma controllers_come_from_generators_witness :
  ∃ ret failed st',
    LoadRules map_to_list (Slice [Some 0%nat]) sharedState
    = ((ret, None, failed), st')
    ∧ ∀ res tcs tc, tcMap st' !! res = Some tcs → tc ∈ tcs →
        generatedFor (tcGenFuncMap sharedState) (elems (Slice [Some 0%nat]))
          (heap sharedState) (heap st') res tc.
Proof.
  eexists _, _, _. split; [vm_compute; reflexivity|].
  eapply (controllers_come_from_generators map_to_list
            (Slice [Some 0%nat]) sharedState).
  vm_compute. reflexivity.
Defined.

(** A reload of [loadedState] in two orders. *)
Lemma LoadRules_any_order_witness :
  honoursContract (heap loadedState) (tcGenFuncMap loadedState)
  ∧ carriesRules (heap loadedState) (tcMap loadedState)
  ∧ LoadRules map_to_list (Slice [Some 2; Some 4; Some 1]%nat) loadedState
    = LoadRules reverseRange (Slice [Some 2; Some 4; Some 1]%nat) loadedState.
Proof.
  assert (carriesRules (heap loadedState) (tcMap loadedState)) as Hcarry.
  { apply distinctRules_carriesRules, distinctRulesb_sound.
    vm_compute. reflexivity. }
  split; [apply initGenFuncMap_honoursContract|]. split; [exact Hcarry|].
  apply (LoadRules_any_order map_to_list reverseRange map_to_list_range
           reverseRange_range (Slice [Some 2; Some 4; Some 1]%nat) loadedState
           (initGenFuncMap_honoursContract _) Hcarry).
Defined.

(** A reload of the rules of [loadedState] in another order, then the
    queries in two orders. *)
Lemma changed_iff_GetRules_differs_witness :
  honoursContract (heap emptyState) (tcGenFuncMap emptyState)
  ∧ ∃ ret1 failed1 st1 ret2 failed2 st2,
      LoadRules map_to_list (Slice [Some 0; Some 1; Some 2]%nat) emptyState
      = ((ret1, None, failed1), st1)
      ∧ LoadRules reverseRange (Slice [Some 2; Some 3; Some 1]%nat) st1
        = ((ret2, None, failed2), st2)
      ∧ ∃ vs1 vs2, returned (GetRules map_to_list st1) = Some (Some <$> vs1)
                   ∧ returned (GetRules reverseRange st2) = Some (Some <$> vs2)
                   ∧ (ret2 = false ↔ vs1 ≡ₚ vs2).
Proof.
  split; [apply initGenFuncMap_honoursContract|].
  eexists _, _, _, _, _, _.
  split; [vm_compute; reflexivity|]. split; [vm_compute; reflexivity|].
  eapply (changed_iff_GetRules_differs map_to_list reverseRange map_to_list
            reverseRange reverseRange_range map_to_list_range reverseRange_range
            (Slice [Some 0; Some 1; Some 2]%nat)
            (Slice [Some 2; Some 3; Some 1]%nat) emptyState).
  - apply initGenFuncMap_honoursContract.
  - vm_compute. reflexivity.
  - vm_compute. reflexivity.
Defined.

(** With a controller that has no rule the order shows: visiting the
    resource of that controller first makes the change detection
    panic, visiting the other resource first ends the traversal with a
    change before the controller is looked at. *)
Example LoadRules_order_shows_without_rule :
  (LoadRules map_to_list (Slice [Some 0; Some 2]%nat) nilRuleState).1.1.2
  = Some nilDeref
  ∧ (LoadRules reverseRange (Slice [Some 0; Some 2]%nat) nilRuleState).1
    = (true, None, NilSlice).
Proof. split; vm_compute; reflexivity. Qed.

(** ** The tests of rule_manager_test.go *)

(** Test_onRuleUpdate_valid: basic, duplicate, repeat, remove, clear. *)
Example onRuleUpdate_basic :
  let '(r, st) := onRuleUpdate map_to_list (Slice [Some 0; Some 2]%nat) emptyState in
  r = (true, None, NilSlice)
  ∧ length <$> tcMap st !! "abc1"%string = Some 1%nat
  ∧ length <$> tcMap st !! "abc2"%string = Some 1%nat.
Proof. vm_compute. done. Qed.

Example onRuleUpdate_duplicate :
  let '(r, st) := onRuleUpdate map_to_list (Slice [Some 0; Some 0]%nat) emptyState in
  r = (true, None, NilSlice) ∧ length <$> tcMap st !! "abc1"%string = Some 1%nat.
Proof. vm_compute. done. Qed.

Example onRuleUpdate_repeat :
  let '(r1, st1) := onRuleUpdate map_to_list (Slice [Some 0%nat]) emptyState in
  let '(r2, st2) := onRuleUpdate map_to_list (Slice [Some 0%nat]) st1 in
  r1.1.2 = None ∧ r2 = (false, None, NilSlice)
  ∧ length <$> tcMap st2 !! "abc1"%string = Some 1%nat.
Proof. vm_compute. done. Qed.

Example onRuleUpdate_remove :
  let '(r1, st1) := onRuleUpdate map_to_list (Slice [Some 0; Some 2]%nat) emptyState in
  let '(r2, st2) := onRuleUpdate map_to_list (Slice [Some 2%nat]) st1 in
  r1.1.2 = None ∧ r2 = (true, None, NilSlice) ∧ size (tcMap st2) = 1%nat
  ∧ length <$> tcMap st2 !! "abc2"%string = Some 1%nat.
Proof. vm_compute. done. Qed.

Example onRuleUpdate_clear :
  let '(r1, st1) := onRuleUpdate map_to_list (Slice [Some 0%nat]) emptyState in
  let '(r2, st2) := onRuleUpdate map_to_list NilSlice st1 in
  r1.1.2 = None ∧ r2 = (true, None, NilSlice) ∧ tcMap st2 = ∅.
Proof. vm_compute. done. Qed.

(** Test_onRuleUpdate_invalid: an invalid rule, and a rule without
    generator. *)
Example onRuleUpdate_invalidRule :
  let '(r, st) := onRuleUpdate map_to_list (Slice [Some 4%nat]) emptyState in
  r = (false, None, Slice [Some 4%nat]) ∧ tcMap st = ∅.
Proof. vm_compute. done. Qed.

Example buildFlowMap_unsupportedControlBehavior :
  let '(r, st) := onRuleUpdate map_to_list (Slice [Some 5%nat]) emptyState in
  r = (false, None, Slice [Some 5%nat]) ∧ tcMap st = ∅.
Proof. vm_compute. done. Qed.

(** TestSetAndRemoveTrafficShapingGenerator: the controller of the map
    is the one the custom generator returned; once the generator is
    removed the rule fails to load. *)
Example SetAndRemoveTrafficShapingGenerator :
  (SetTrafficShapingGenerator Direct Reject (Some sharedControllerGen) tscState).1
  = Some protectedError
  ∧ (RemoveTrafficShapingGenerator Direct Reject tscState).1 = Some protectedError
  ∧ let '(e1, st1) :=
      SetTrafficShapingGenerator 111 112 (Some sharedControllerGen) tscState in
    let '(r2, st2) := LoadRules map_to_list (Slice [Some 0%nat]) st1 in
    let '(e3, st3) := RemoveTrafficShapingGenerator 111 112 st2 in
    let '(r4, st4) := LoadRules map_to_list (Slice [Some 0%nat]) st3 in
    e1 = None ∧ r2.1.2 = None
    ∧ is_Some (tcGenFuncMap st2 !! (111, 112))
    ∧ tcMap st2 !! "test-customized-tc"%string = Some [0%nat]
    ∧ ctrls (heap st2) = ctrls (heap tscState)
    ∧ e3 = None ∧ tcGenFuncMap st3 !! (111, 112) = None
    ∧ r4.2 = Slice [Some 0%nat].
Proof. vm_compute. repeat split; try done. by eexists. Qed.

(** TestIsValidFlowRule. *)
Example IsValidFlowRule :
  is_Some (IsValidRule (Some badRule1)) ∧ is_Some (IsValidRule (Some badRule2))
  ∧ is_Some (IsValidRule (Some badRule3)) ∧ IsValidRule (Some goodRule1) = None.
Proof. vm_compute. repeat split; by eexists. Qed.

End Flow.
